(** * minio.xml_marshal: XML marshallers and the ElementTree-to-dict fold

    A shallow embedding of [minio/xml_marshal.py] and the properties of its
    decode fold ([etree_to_dict], [xml_to_dict]) and of its marshallers.

    Python values are modelled as follows.
    - [str] is [string]; a character is a code point below 256.
    - [dict] is an association list in insertion order with unique keys
      ([dict_get], [dict_set], [dict_update]); [defaultdict(list)] is the same
      with [dd_append].
    - an [xml.etree.ElementTree.Element] is the inductive [ET.Element]: a
      parsed document is a tree, no node is shared.
    - the assignment [elem.tag = ...] of [etree_to_dict] is modelled by
      returning the tree as it is after the call next to the result.
    - a marshaller builds its tree by mutation: a Python variable holding a
      node is a path from the root, and [SubElement] runs in a state monad
      over the root, with exceptions. *)

From Stdlib Require Import Bool Arith List Lia ZArith.
From Stdlib Require Import Strings.Ascii Strings.String Numbers.DecimalString.
From Stdlib Require Import Numbers.DecimalPos.
Import ListNotations.
Open Scope string_scope.
Open Scope list_scope.

Set Implicit Arguments.
Set Warnings "-register-all".

(** ** Python [str] methods used by the module *)

Section PyStr.

(** [s.replace(old, new)] for a non-empty [old]: scan from the left; where
    [old] starts, emit [new] and skip [len(old)] characters. *)
Fixpoint replace_from (old new : string) (skip : nat) (s : string) : string :=
  match s with
  | EmptyString => EmptyString
  | String c s' =>
      match skip with
      | S k => replace_from old new k s'
      | O =>
          if prefix old s
          then new ++ replace_from old new (length old - 1) s'
          else String c (replace_from old new 0 s')
      end
  end.

(** For an empty [old] Python puts [new] around every character. *)
Fixpoint interleave (new s : string) : string :=
  match s with
  | EmptyString => new
  | String c s' => new ++ String c (interleave new s')
  end.

Definition replace (old new s : string) : string :=
  match old with
  | EmptyString => interleave new s
  | String _ _ => replace_from old new 0 s
  end.

(** [str.isspace] on the code points below 256. *)
Definition isspace (c : ascii) : bool :=
  let n := nat_of_ascii c in
  (((9 <=? n) && (n <=? 13)) || ((28 <=? n) && (n <=? 32))
   || (n =? 133) || (n =? 160))%nat.

Fixpoint lstrip (s : string) : string :=
  match s with
  | EmptyString => EmptyString
  | String c s' => if isspace c then lstrip s' else s
  end.

Fixpoint rstrip (s : string) : string :=
  match s with
  | EmptyString => EmptyString
  | String c s' =>
      match rstrip s' with
      | EmptyString => if isspace c then EmptyString else String c EmptyString
      | r => String c r
      end
  end.

(** [s.strip()] *)
Definition strip (s : string) : string := rstrip (lstrip s).

Definition lower_char (c : ascii) : ascii :=
  let n := nat_of_ascii c in
  if (((65 <=? n) && (n <=? 90))
      || ((192 <=? n) && (n <=? 222) && negb (n =? 215)))%nat
  then ascii_of_nat (n + 32) else c.

(** [s.lower()] *)
Fixpoint lower (s : string) : string :=
  match s with
  | EmptyString => EmptyString
  | String c s' => String (lower_char c) (lower s')
  end.

(** [str(n)] for an [int]. *)
Definition str_of_int (n : Z) : string := NilEmpty.string_of_int (Z.to_int n).

(** Truth value of a [str]: non-empty. *)
Definition str_true (s : string) : bool :=
  match s with EmptyString => false | String _ _ => true end.

(** [sub in s] *)
Fixpoint contains (sub s : string) : bool :=
  prefix sub s
  || match s with
     | EmptyString => false
     | String _ s' => contains sub s'
     end.

(** [c in s] for one character. *)
Fixpoint has_char (c : ascii) (s : string) : bool :=
  match s with
  | EmptyString => false
  | String c' s' => Ascii.eqb c' c || has_char c s'
  end.

End PyStr.

(** ** Python [dict] as an insertion-ordered association list *)

Section PyDict.

Variable V : Type.

Definition dict := list (string * V).

(** [d.get(k)] *)
Fixpoint dict_get (k : string) (d : dict) : option V :=
  match d with
  | [] => None
  | (k', v) :: r => if String.eqb k' k then Some v else dict_get k r
  end.

(** [d[k] = v]: an existing key keeps its place, a new key goes last. *)
Fixpoint dict_set (k : string) (v : V) (d : dict) : dict :=
  match d with
  | [] => [(k, v)]
  | (k', v') :: r =>
      if String.eqb k' k then (k', v) :: r else (k', v') :: dict_set k v r
  end.

(** [d.update(items)] *)
Definition dict_update (d : dict) (items : list (string * V)) : dict :=
  fold_left (fun acc kv => dict_set (fst kv) (snd kv) acc) items d.

Definition dict_keys (d : dict) : list string := map fst d.

End PyDict.

(** [dd[k].append(x)] on a [defaultdict(list)]. *)
Fixpoint dd_append (V : Type) (k : string) (x : V) (dd : dict (list V))
  : dict (list V) :=
  match dd with
  | [] => [(k, [x])]
  | (k', l) :: r =>
      if String.eqb k' k then (k', l ++ [x]) :: r
      else (k', l) :: dd_append k x r
  end.

(** Truth value of a list or dict: non-empty. *)
Definition nonempty (A : Type) (l : list A) : bool :=
  match l with [] => false | _ :: _ => true end.

(** ** Exceptions *)

Inductive exn : Type :=
| KeyError (key : string)
| ParseError.

Inductive result (A : Type) : Type :=
| Ok (a : A)
| Raise (e : exn).

Arguments Raise {A} e.

Definition result_map (A B : Type) (f : A -> B) (r : result A) : result B :=
  match r with
  | Ok a => Ok (f a)
  | Raise e => Raise e
  end.

(** ** [xml.etree.ElementTree]: trees, tree building, serialisation *)

Module ET.

(** An [ElementTree.Element]. *)
Inductive Element : Type :=
  Elem (tag : string) (attrib : dict string) (text tail : option string)
       (children : list Element).

Definition tag (e : Element) : string :=
  match e with Elem t _ _ _ _ => t end.
Definition attrib (e : Element) : dict string :=
  match e with Elem _ a _ _ _ => a end.
Definition text (e : Element) : option string :=
  match e with Elem _ _ x _ _ => x end.
Definition tail (e : Element) : option string :=
  match e with Elem _ _ _ x _ => x end.
Definition children (e : Element) : list Element :=
  match e with Elem _ _ _ _ cs => cs end.

(** [ET.Element(tag, attrib)]: a fresh node. *)
Definition new (t : string) (a : dict string) : Element :=
  Elem t a None None [].

(** A reference to a node of the tree under construction: the child
    indices on the way down from the root. *)
Definition ref := list nat.

Fixpoint map_nth (A : Type) (i : nat) (f : A -> A) (l : list A) : list A :=
  match l, i with
  | [], _ => []
  | x :: r, O => f x :: r
  | x :: r, S j => x :: map_nth j f r
  end.

Fixpoint node_at (p : ref) (t : Element) : option Element :=
  match p with
  | [] => Some t
  | i :: p' =>
      match nth_error (children t) i with
      | Some c => node_at p' c
      | None => None
      end
  end.

(** In-place modification of the node [p] refers to. *)
Fixpoint update_at (p : ref) (f : Element -> Element) (t : Element)
  : Element :=
  match p with
  | [] => f t
  | i :: p' =>
      match t with
      | Elem tg a x tl cs => Elem tg a x tl (map_nth i (update_at p' f) cs)
      end
  end.

Definition append (c : Element) (e : Element) : Element :=
  match e with Elem tg a x tl cs => Elem tg a x tl (cs ++ [c]) end.

Definition with_text (s : string) (e : Element) : Element :=
  match e with Elem tg a _ tl cs => Elem tg a (Some s) tl cs end.

(** Tree-building code: the root is the state, an exception ends it. *)
Definition Build (A : Type) : Type := Element -> result (A * Element).

Definition ret (A : Type) (a : A) : Build A := fun root => Ok (a, root).

Definition bind (A B : Type) (c : Build A) (k : A -> Build B) : Build B :=
  fun root =>
    match c root with
    | Ok (a, root') => k a root'
    | Raise e => Raise e
    end.

Definition raise (A : Type) (e : exn) : Build A := fun _ => Raise e.

Arguments raise {A} e.

(** [ET.SubElement(parent, tag)]: append a fresh node to [parent] and
    return it. *)
Definition SubElement (parent : ref) (t : string) : Build ref :=
  fun root =>
    let n := match node_at parent root with
             | Some e => List.length (children e)
             | None => O
             end in
    Ok (parent ++ [n], update_at parent (append (new t [])) root).

(** [node.text = s] *)
Definition set_text (node : ref) (s : string) : Build unit :=
  fun root => Ok (tt, update_at node (with_text s) root).

(** The root after running [c] from [root]. *)
Definition built (A : Type) (root : Element) (c : Build A)
  : result Element :=
  result_map snd (c root).

Definition dquote : string := String (ascii_of_nat 34) EmptyString.

(** [_escape_cdata(text)] *)
Definition _escape_cdata (s : string) : string :=
  replace ">" "&gt;" (replace "<" "&lt;" (replace "&" "&amp;" s)).

(** [_escape_attrib(text)] *)
Definition _escape_attrib (s : string) : string :=
  replace (String (ascii_of_nat 9) EmptyString) "&#09;"
    (replace (String (ascii_of_nat 10) EmptyString) "&#10;"
       (replace (String (ascii_of_nat 13) EmptyString) "&#13;"
          (replace dquote "&quot;" (_escape_cdata s)))).

(** [s.encode("us-ascii", "xmlcharrefreplace")], the encoding [write]
    falls back to for [encoding=None]. *)
Fixpoint encode (s : string) : string :=
  match s with
  | EmptyString => EmptyString
  | String c s' =>
      let n := nat_of_ascii c in
      if (n <? 128)%nat then String c (encode s')
      else ("&#" ++ NilEmpty.string_of_uint (Nat.to_uint n) ++ ";"
                 ++ encode s')%string
  end.

Definition opt_text (x : option string) : string :=
  match x with Some s => encode (_escape_cdata s) | None => EmptyString end.

Definition opt_true (x : option string) : bool :=
  match x with Some s => str_true s | None => false end.

Definition join (l : list string) : string :=
  fold_right String.append EmptyString l.

(** [_serialize_xml] with [short_empty_elements=True], on trees whose tags
    and attribute names are plain names: the qualified-name table of
    [ElementTree.write] is then the identity and no namespace declaration
    is added.  The marshallers build only such trees. *)
Fixpoint _serialize_xml (e : Element) : string :=
  match e with
  | Elem tg a x tl cs =>
      ("<" ++ encode tg
       ++ join (map (fun kv => " " ++ encode (fst kv) ++ "=" ++ dquote
                                ++ encode (_escape_attrib (snd kv))
                                ++ dquote) a)
       ++ (if opt_true x || nonempty cs
           then ">" ++ opt_text x ++ join (map _serialize_xml cs)
                    ++ "</" ++ encode tg ++ ">"
           else " />")
       ++ (if opt_true tl then opt_text tl else EmptyString))%string
  end.

(** [ElementTree(element).write(data, encoding=None,
    xml_declaration=False)]: the bytes written to [data]. *)
Definition write (e : Element) : string := _serialize_xml e.

End ET.

Notation "x <- c ;; k" := (ET.bind c (fun x => k))
  (at level 61, c at next level, right associativity).
Notation "c ;;; k" := (ET.bind c (fun _ => k))
  (at level 61, right associativity).

(** [for x in xs: body(x)] *)
Fixpoint for_each (A : Type) (xs : list A) (body : A -> ET.Build unit)
  : ET.Build unit :=
  match xs with
  | [] => ET.ret tt
  | x :: r => body x ;;; for_each r body
  end.

(** ** [minio.xml_marshal] *)

Definition _S3_NAMESPACE : string := "http://s3.amazonaws.com/doc/2006-03-01/".

Definition Element (tag : string) (with_namespace : bool) : ET.Element :=
  if with_namespace then ET.new tag [("xmlns", _S3_NAMESPACE)]
  else ET.new tag [].

Definition SubElement (parent : ET.ref) (tag : string) (text : option string)
  : ET.Build ET.ref :=
  subElement <- ET.SubElement parent tag ;;
  match text with
  | Some s => ET.set_text subElement s
  | None => ET.ret tt
  end ;;;
  ET.ret subElement.

Definition get_xml_data (element : ET.Element) : string := ET.write element.

(** *** Decoding *)

(** What [etree_to_dict] builds: [None], a [str], a [dict] or a [list]. *)
Inductive value : Type :=
| VNone
| VStr (s : string)
| VDict (d : list (string * value))
| VList (l : list value).

(** The local [ns] of [etree_to_dict]. *)
Definition ns : string := "{" ++ _S3_NAMESPACE ++ "}".

(** [tag.replace(ns, '')] *)
Definition strip_ns (t : string) : string := replace ns "" t.


(** [d[elem.tag].update(items)]: reached only under [if elem.attrib], where
    [d[elem.tag]] is a dict; the other cases are left as they are. *)
Definition value_update (v : value) (items : list (string * value)) : value :=
  match v with
  | VDict m => VDict (dict_update m items)
  | _ => v
  end.

(** [d[elem.tag][k] = x]: reached only under [if children or elem.attrib]. *)
Definition value_setitem (v : value) (k : string) (x : value) : value :=
  match v with
  | VDict m => VDict (dict_set k x m)
  | _ => v
  end.

(** The two inner loops over [map(etree_to_dict, children)]:
    [dd[k].append(wrap v)] for every item of every child's dict. *)
Definition collect (wrap : value -> value) (dcs : list (dict value))
  : dict (list value) :=
  fold_left
    (fun dd dc =>
       fold_left (fun dd' kv => dd_append (fst kv) (wrap (snd kv)) dd') dc dd)
    dcs [].

(** [v[0] if len(v) == 1 else v] *)
Definition unwrap1 (v : list value) : value :=
  match v with
  | [x] => x
  | _ => VList v
  end.

(** [children[0].tag.replace(ns, '') == 'Rule'] *)
Definition first_is_rule (cs : list ET.Element) : bool :=
  match cs with
  | [] => false
  | c0 :: _ => String.eqb (strip_ns (ET.tag c0)) "Rule"
  end.

Definition wrap_of (rule : bool) (v : value) : value :=
  if rule then VList [v] else v.

(** [(('@' + k, v) for k, v in elem.attrib.items())] *)
Definition attrib_items (a : dict string) : list (string * value) :=
  map (fun kv => (("@" ++ fst kv)%string, VStr (snd kv))) a.

(** Lines 67-79: [d[elem.tag]] once the children are folded in; [dcs] is
    [map(etree_to_dict, children)]. *)
Definition after_children (a : dict string) (cs : list ET.Element)
  (dcs : list (dict value)) : value :=
  if nonempty cs then
    let dd := collect (wrap_of (first_is_rule cs)) dcs in
    VDict (map (fun kv => (fst kv, unwrap1 (snd kv))) dd)
  else if nonempty a then VDict [] else VNone.

(** Lines 80-81: [if elem.attrib: d[elem.tag].update(...)] *)
Definition after_attrib (a : dict string) (v : value) : value :=
  if nonempty a then value_update v (attrib_items a) else v.

(** Lines 82-88: [if elem.text: ...]; [compound] is
    [children or elem.attrib]. *)
Definition after_text (x : option string) (compound : bool) (v : value)
  : value :=
  match x with
  | Some t =>
      if str_true t then
        let t1 := strip t in
        if compound then
          if str_true t1 then value_setitem v "#text" (VStr t1) else v
        else VStr t1
      else v
  | None => v
  end.

(** [etree_to_dict]: the tree after the call and the returned dict. *)
Fixpoint etree_to_dict (elem : ET.Element) : ET.Element * dict value :=
  match elem with
  | ET.Elem tag0 attrib0 text0 tail0 children0 =>
      let tag1 := strip_ns tag0 in
      let rs := map etree_to_dict children0 in
      let d :=
        after_text text0 (nonempty children0 || nonempty attrib0)
          (after_attrib attrib0
             (after_children attrib0 children0 (map snd rs))) in
      (ET.Elem tag1 attrib0 text0 tail0 (map fst rs), [(tag1, d)])
  end.

(** The returned dict, and the tree the caller is left with. *)
Definition decode (elem : ET.Element) : dict value := snd (etree_to_dict elem).
Definition tree_after (elem : ET.Element) : ET.Element :=
  fst (etree_to_dict elem).

(** The dict returned by [etree_to_dict] has the single key [elem.tag];
    [value_of] is the value under it. *)
Definition value_of (elem : ET.Element) : value :=
  match decode elem with
  | [(_, v)] => v
  | _ => VNone
  end.

(** [v.get(k)] when [v] is a dict. *)
Definition value_get (k : string) (v : value) : option value :=
  match v with
  | VDict m => dict_get k m
  | _ => None
  end.

(** [isinstance(v, dict) and k in v] *)
Definition has_key (k : string) (v : value) : bool :=
  match value_get k v with Some _ => true | None => false end.

Definition is_list (v : value) : bool :=
  match v with VList _ => true | _ => false end.

Definition is_dict (v : value) : bool :=
  match v with VDict _ => true | _ => false end.

(** The children of a node whose stripped tag is [k], in document order. *)
Definition children_tagged (k : string) (cs : list ET.Element)
  : list ET.Element :=
  filter (fun c => String.eqb (strip_ns (ET.tag c)) k) cs.

(** The single item of each child's dict, in document order. *)
Definition child_items (cs : list ET.Element) : list (string * value) :=
  map (fun c => (strip_ns (ET.tag c), value_of c)) cs.

(** The list under a key of a [defaultdict(list)] after appending [l]. *)
Definition extend (o : option (list value)) (l : list value)
  : option (list value) :=
  match l with
  | [] => o
  | _ :: _ => Some (match o with Some l0 => l0 ++ l | None => l end)
  end.

(** The tree with [f] applied to the tag of every node. *)
Fixpoint map_tags (f : string -> string) (e : ET.Element) : ET.Element :=
  match e with
  | ET.Elem t a x tl cs => ET.Elem (f t) a x tl (map (map_tags f) cs)
  end.

(** Every key of a decoded value, at every depth. *)
Fixpoint value_keys (v : value) : list string :=
  match v with
  | VDict d => flat_map (fun kv => fst kv :: value_keys (snd kv)) d
  | VList l => flat_map value_keys l
  | _ => []
  end.

Definition decode_keys (elem : ET.Element) : list string :=
  value_keys (VDict (decode elem)).

(** Every key of [v], at every depth, satisfies [P]; the same for an item
    of a dict and for an item of a [defaultdict(list)]. *)
Definition keys_ok (P : string -> Prop) (v : value) : Prop :=
  Forall P (value_keys v).
Definition entry_ok (P : string -> Prop) (kv : string * value) : Prop :=
  P (fst kv) /\ keys_ok P (snd kv).
Definition group_ok (P : string -> Prop) (kl : string * list value) : Prop :=
  P (fst kl) /\ Forall (keys_ok P) (snd kl).

(** A key a child tag can give: an XML name starts neither with [@] nor
    with [#]. *)
Definition child_key (k : string) : bool :=
  negb (prefix "@" k) && negb (String.eqb k "#text").

(** A local name: no brace in it. *)
Definition local_name (s : string) : bool := negb (has_char "{" s).

(** No tag of the tree has a brace in it. *)
Fixpoint local_tags (e : ET.Element) : bool :=
  match e with
  | ET.Elem t _ _ _ cs => local_name t && forallb local_tags cs
  end.

(** The tag of a node in no namespace or in the protocol namespace. *)
Definition tag_uniform (t : string) : Prop :=
  exists l, local_name l = true /\ (t = l \/ t = (ns ++ l)%string).

(** A document that uses at most the protocol namespace, applied to its
    elements (as a default namespace is): every tag is [tag_uniform] and
    every attribute name is a local name. *)
Inductive uniform_ns : ET.Element -> Prop :=
| uniform_node t a x tl cs :
    tag_uniform t ->
    Forall (fun kv => local_name (fst kv) = true) a ->
    Forall uniform_ns cs ->
    uniform_ns (ET.Elem t a x tl cs).

(** ** Induction on trees *)

Section ElementInd.

Variable P : ET.Element -> Prop.
Hypothesis P_node :
  forall t a x tl cs, Forall P cs -> P (ET.Elem t a x tl cs).

Fixpoint Element_forest_ind (e : ET.Element) : P e :=
  match e with
  | ET.Elem t a x tl cs =>
      P_node t a x tl
        ((fix go (l : list ET.Element) : Forall P l :=
            match l with
            | [] => Forall_nil P
            | c :: r => Forall_cons c (Element_forest_ind c) (go r)
            end) cs)
  end.

End ElementInd.

(** [xml_to_dict], over the parser [ET.XML]: the bytes of a document to its
    tree, or [ParseError]. *)
Section Parser.

Variable XML : string -> result ET.Element.

Definition xml_to_dict (in_xml : string) : result (dict value) :=
  match XML in_xml with
  | Ok elem => Ok (decode elem)
  | Raise e => Raise e
  end.

End Parser.

(** *** Marshallers *)

(** The variable [root] of every marshaller. *)
Definition root : ET.ref := [].

(** [d[k]] *)
Definition getitem (V : Type) (d : dict V) (k : string) : ET.Build V :=
  match dict_get k d with
  | Some v => ET.ret v
  | None => ET.raise (KeyError k)
  end.

(** [d.get(k, default)] *)
Definition get_default (V : Type) (d : dict V) (k : string) (default : V) : V :=
  match dict_get k d with
  | Some v => v
  | None => default
  end.

(** A value of a rule dict: a [str] or [None]. *)
Definition rule := dict (dict (option string)).

Definition xml_marshal_bucket_encryption_root (rules : list rule)
  : result ET.Element :=
  ET.built (Element "ServerSideEncryptionConfiguration" false)
    match rules with
    | [] => ET.ret tt
    | rules_0 :: _ =>
        rule_element <- SubElement root "Rule" None ;;
        apply_element <-
          SubElement rule_element "ApplyServerSideEncryptionByDefault" None ;;
        sse <- getitem rules_0 "ApplyServerSideEncryptionByDefault" ;;
        SubElement apply_element "SSEAlgorithm"
          (get_default sse "SSEAlgorithm" (Some "AES256")) ;;;
        sse' <- getitem rules_0 "ApplyServerSideEncryptionByDefault" ;;
        let kms_text := get_default sse' "KMSMasterKeyID" None in
        if ET.opt_true kms_text
        then SubElement apply_element "KMSMasterKeyID" kms_text ;;; ET.ret tt
        else ET.ret tt
    end.

Definition xml_marshal_bucket_encryption (rules : list rule) : result string :=
  result_map get_xml_data (xml_marshal_bucket_encryption_root rules).

Definition xml_marshal_bucket_constraint (region : option string)
  : result string :=
  result_map get_xml_data
    (ET.built (Element "CreateBucketConfiguration" true)
       (SubElement root "LocationConstraint" region)).

Module CSVInput.
Record t : Type := {
  FileHeaderInfo : string;
  RecordDelimiter : string;
  FieldDelimiter : string;
  QuoteCharacter : string;
  QuoteEscapeCharacter : string;
  Comments : string;
  AllowQuotedRecordDelimiter : string
}.
End CSVInput.

Module JSONInput.
Record t : Type := { Type_ : string }.
End JSONInput.

Module ParquetInput.
Record t : Type := {}.
End ParquetInput.

Module CSVOutput.
Record t : Type := {
  QuoteFields : string;
  RecordDelimiter : string;
  FieldDelimiter : string;
  QuoteCharacter : string;
  QuoteEscapeCharacter : string
}.
End CSVOutput.

Module JSONOutput.
Record t : Type := { RecordDelimiter : string }.
End JSONOutput.

(** An attribute holding an object or [None]; an object is true. *)
Record InputSerialization : Type := {
  compression_type : string;
  csv_input : option CSVInput.t;
  json_input : option JSONInput.t;
  parquet_input : option ParquetInput.t
}.

Record OutputSerialization : Type := {
  csv_output : option CSVOutput.t;
  json_output : option JSONOutput.t
}.

Record RequestProgress : Type := { enabled : string }.

Record SelectObjectOptions : Type := {
  expression : string;
  in_ser : InputSerialization;
  out_ser : OutputSerialization;
  req_progress : RequestProgress
}.

Definition xml_marshal_select_root (opts : SelectObjectOptions)
  : result ET.Element :=
  ET.built (Element "SelectObjectContentRequest" false)
    (SubElement root "Expression" (Some (expression opts)) ;;;
     SubElement root "ExpressionType" (Some "SQL") ;;;
     input_serialization <- SubElement root "InputSerialization" None ;;
     SubElement input_serialization "CompressionType"
       (Some (compression_type (in_ser opts))) ;;;
     match csv_input (in_ser opts) with
     | Some csv_input =>
         csv <- SubElement input_serialization "CSV" None ;;
         SubElement csv "FileHeaderInfo"
           (Some (CSVInput.FileHeaderInfo csv_input)) ;;;
         SubElement csv "RecordDelimiter"
           (Some (CSVInput.RecordDelimiter csv_input)) ;;;
         SubElement csv "FieldDelimiter"
           (Some (CSVInput.FieldDelimiter csv_input)) ;;;
         SubElement csv "QuoteCharacter"
           (Some (CSVInput.QuoteCharacter csv_input)) ;;;
         SubElement csv "QuoteEscapeCharacter"
           (Some (CSVInput.QuoteEscapeCharacter csv_input)) ;;;
         SubElement csv "Comments" (Some (CSVInput.Comments csv_input)) ;;;
         SubElement csv "AllowQuotedRecordDelimiter"
           (Some (lower (CSVInput.AllowQuotedRecordDelimiter csv_input))) ;;;
         ET.ret tt
     | None => ET.ret tt
     end ;;;
     match json_input (in_ser opts) with
     | Some json_input =>
         json <- SubElement input_serialization "JSON" None ;;
         SubElement json "Type" (Some (JSONInput.Type_ json_input)) ;;;
         ET.ret tt
     | None => ET.ret tt
     end ;;;
     match parquet_input (in_ser opts) with
     | Some _ => SubElement input_serialization "Parquet" None ;;; ET.ret tt
     | None => ET.ret tt
     end ;;;
     output_serialization <- SubElement root "OutputSerialization" None ;;
     match csv_output (out_ser opts) with
     | Some csv_output =>
         csv <- SubElement output_serialization "CSV" None ;;
         SubElement csv "QuoteFields"
           (Some (CSVOutput.QuoteFields csv_output)) ;;;
         SubElement csv "RecordDelimiter"
           (Some (CSVOutput.RecordDelimiter csv_output)) ;;;
         SubElement csv "FieldDelimiter"
           (Some (CSVOutput.FieldDelimiter csv_output)) ;;;
         SubElement csv "QuoteCharacter"
           (Some (CSVOutput.QuoteCharacter csv_output)) ;;;
         SubElement csv "QuoteEscapeCharacter"
           (Some (CSVOutput.QuoteEscapeCharacter csv_output)) ;;;
         ET.ret tt
     | None => ET.ret tt
     end ;;;
     match json_output (out_ser opts) with
     | Some json_output =>
         json <- SubElement output_serialization "JSON" None ;;
         SubElement json "RecordDelimiter"
           (Some (JSONOutput.RecordDelimiter json_output)) ;;;
         ET.ret tt
     | None => ET.ret tt
     end ;;;
     request_progress <- SubElement root "RequestProgress" None ;;
     SubElement request_progress "Enabled"
       (Some (lower (enabled (req_progress opts))))).

Definition xml_marshal_select (opts : SelectObjectOptions) : result string :=
  result_map get_xml_data (xml_marshal_select_root opts).

Record UploadPart : Type := {
  part_number : Z;
  etag : string
}.

Definition xml_marshal_complete_multipart_upload_root
  (uploaded_parts : list UploadPart) : result ET.Element :=
  ET.built (Element "CompleteMultipartUpload" true)
    (for_each uploaded_parts (fun uploaded_part =>
       part <- SubElement root "Part" None ;;
       SubElement part "PartNumber"
         (Some (str_of_int (part_number uploaded_part))) ;;;
       SubElement part "ETag"
         (Some (ET.dquote ++ etag uploaded_part ++ ET.dquote)%string) ;;;
       ET.ret tt)).

Definition xml_marshal_complete_multipart_upload
  (uploaded_parts : list UploadPart) : result string :=
  result_map get_xml_data
    (xml_marshal_complete_multipart_upload_root uploaded_parts).

Definition xml_marshal_delete_objects_root (object_names : list string)
  : result ET.Element :=
  ET.built (Element "Delete" false)
    (SubElement root "Quiet" (Some "true") ;;;
     for_each object_names (fun object_name =>
       object <- SubElement root "Object" None ;;
       SubElement object "Key" (Some object_name) ;;;
       ET.ret tt)).

Definition xml_marshal_delete_objects (object_names : list string)
  : result string :=
  result_map get_xml_data (xml_marshal_delete_objects_root object_names).

(** *** Bucket notifications *)

(** A notification config dict: each documented key is absent or holds a
    value of its documented type. *)
Module NotificationConfig.
Record t : Type := {
  Id : option string;
  Arn : option string;
  Events : option (list string);
  Filter : option (dict (dict (list (dict string))))
}.
End NotificationConfig.

(** [config[k]] for a key of a config. *)
Definition config_item (A : Type) (k : string) (o : option A) : ET.Build A :=
  match o with
  | Some v => ET.ret v
  | None => ET.raise (KeyError k)
  end.

Definition NOTIFICATIONS_ARN_FIELDNAME_MAP : dict string :=
  [("TopicConfiguration", "Topic");
   ("QueueConfiguration", "Queue");
   ("CloudFunctionConfiguration", "CloudFunction")].

(** [config.get('Filter', {}).get('Key', {}).get('FilterRules', [])] *)
Definition filter_rules_of (config : NotificationConfig.t)
  : list (dict string) :=
  get_default
    (get_default
       (match NotificationConfig.Filter config with
        | Some f => f
        | None => []
        end) "Key" [])
    "FilterRules" [].

Definition _add_notification_config_to_xml (node : ET.ref)
  (element_name : string) (configs : list NotificationConfig.t)
  : ET.Build ET.ref :=
  for_each configs (fun config =>
    config_node <- SubElement node element_name None ;;
    match NotificationConfig.Id config with
    | Some id => SubElement config_node "Id" (Some id) ;;; ET.ret tt
    | None => ET.ret tt
    end ;;;
    arn_tag <- getitem NOTIFICATIONS_ARN_FIELDNAME_MAP element_name ;;
    arn <- config_item "Arn" (NotificationConfig.Arn config) ;;
    SubElement config_node arn_tag (Some arn) ;;;
    events <- config_item "Events" (NotificationConfig.Events config) ;;
    for_each events (fun event =>
      SubElement config_node "Event" (Some event) ;;; ET.ret tt) ;;;
    let filter_rules := filter_rules_of config in
    if nonempty filter_rules then
      filter_node <- SubElement config_node "Filter" None ;;
      s3key_node <- SubElement filter_node "S3Key" None ;;
      for_each filter_rules (fun filter_rule =>
        filter_rule_node <- SubElement s3key_node "FilterRule" None ;;
        name <- getitem filter_rule "Name" ;;
        SubElement filter_rule_node "Name" (Some name) ;;;
        value <- getitem filter_rule "Value" ;;
        SubElement filter_rule_node "Value" (Some value) ;;;
        ET.ret tt)
    else ET.ret tt) ;;;
  ET.ret node.

Definition xml_marshal_bucket_notifications_root
  (notifications : dict (list NotificationConfig.t)) : result ET.Element :=
  ET.built (Element "NotificationConfiguration" true)
    (_add_notification_config_to_xml root "TopicConfiguration"
       (get_default notifications "TopicConfigurations" []) ;;;
     _add_notification_config_to_xml root "QueueConfiguration"
       (get_default notifications "QueueConfigurations" []) ;;;
     _add_notification_config_to_xml root "CloudFunctionConfiguration"
       (get_default notifications "CloudFunctionConfigurations" [])).

Definition xml_marshal_bucket_notifications
  (notifications : dict (list NotificationConfig.t)) : result string :=
  result_map get_xml_data (xml_marshal_bucket_notifications_root notifications).

(** *** The notification tree, written as a value

    What [_add_notification_config_to_xml] is compared with: the element of
    one config as a pure function, with the exception of the first key the
    loop body misses. *)

(** An element with text and nothing else. *)
Definition leaf (tg s : string) : ET.Element :=
  ET.Elem tg [] (Some s) None [].

Fixpoint result_all (A B : Type) (f : A -> result B) (l : list A)
  : result (list B) :=
  match l with
  | [] => Ok []
  | x :: r =>
      match f x with
      | Raise e => Raise e
      | Ok y =>
          match result_all f r with
          | Raise e => Raise e
          | Ok ys => Ok (y :: ys)
          end
      end
  end.

Definition filter_rule_element (filter_rule : dict string)
  : result ET.Element :=
  match dict_get "Name" filter_rule with
  | None => Raise (KeyError "Name")
  | Some name =>
      match dict_get "Value" filter_rule with
      | None => Raise (KeyError "Value")
      | Some value =>
          Ok (ET.Elem "FilterRule" [] None None
                [leaf "Name" name; leaf "Value" value])
      end
  end.

Definition config_element (element_name : string)
  (config : NotificationConfig.t) : result ET.Element :=
  match dict_get element_name NOTIFICATIONS_ARN_FIELDNAME_MAP with
  | None => Raise (KeyError element_name)
  | Some arn_tag =>
      match NotificationConfig.Arn config with
      | None => Raise (KeyError "Arn")
      | Some arn =>
          match NotificationConfig.Events config with
          | None => Raise (KeyError "Events")
          | Some events =>
              match result_all filter_rule_element (filter_rules_of config)
              with
              | Raise e => Raise e
              | Ok rules =>
                  Ok (ET.Elem element_name [] None None
                        (match NotificationConfig.Id config with
                         | Some id => [leaf "Id" id]
                         | None => []
                         end
                         ++ [leaf arn_tag arn]
                         ++ map (leaf "Event") events
                         ++ (if nonempty rules
                             then [ET.Elem "Filter" [] None None
                                     [ET.Elem "S3Key" [] None None rules]]
                             else [])))
              end
          end
      end
  end.

(** A config the loop body runs through: it has [Arn] and [Events], and
    each of its filter rules has [Name] and [Value]. *)
Definition config_complete (config : NotificationConfig.t) : bool :=
  match NotificationConfig.Arn config, NotificationConfig.Events config with
  | Some _, Some _ =>
      forallb (fun r =>
                 match dict_get "Name" r, dict_get "Value" r with
                 | Some _, Some _ => true
                 | _, _ => false
                 end) (filter_rules_of config)
  | _, _ => false
  end.

(** *** Notions used to state what the fold and the serialiser keep *)

(** [k in keys] *)
Definition mem (k : string) (l : list string) : bool :=
  existsb (String.eqb k) l.

(** The keys of a dict, in order, after [d[k] = ...]. *)
Definition add_key (l : list string) (k : string) : list string :=
  if mem k l then l else l ++ [k].

(** The first occurrences of the strings of [l], in order. *)
Fixpoint uniq (l : list string) : list string :=
  match l with
  | [] => []
  | k :: r => k :: filter (fun k' => negb (String.eqb k' k)) (uniq r)
  end.

(** The keys [etree_to_dict] writes under a node, in the order it writes
    them: the stripped tag of each child, [@name] for each attribute, and
    [#text] when the trimmed text is kept beside children or attributes. *)
Definition written_keys (a : dict string) (x : option string)
  (cs : list ET.Element) : list string :=
  map (fun c => strip_ns (ET.tag c)) cs
  ++ map (fun kv => ("@" ++ fst kv)%string) a
  ++ match x with
     | Some s =>
         if str_true (strip s) && (nonempty cs || nonempty a)
         then ["#text"] else []
     | None => []
     end.

(** The keys of a decoded value that is a dict, in order. *)
Definition top_keys (v : value) : list string :=
  match v with
  | VDict m => map fst m
  | _ => []
  end.

(** Every dict of the value, at every depth, has pairwise distinct keys. *)
Inductive distinct_keys : value -> Prop :=
| distinct_none : distinct_keys VNone
| distinct_str s : distinct_keys (VStr s)
| distinct_dict d :
    NoDup (map fst d) ->
    Forall (fun kv => distinct_keys (snd kv)) d ->
    distinct_keys (VDict d)
| distinct_list l : Forall distinct_keys l -> distinct_keys (VList l).

(** The tags of the tree, the root first. *)
Fixpoint tags (e : ET.Element) : list string :=
  match e with
  | ET.Elem t _ _ _ cs => t :: flat_map tags cs
  end.

(** The tree with [f] applied to the tail of every node. *)
Fixpoint map_tails (f : option string -> option string) (e : ET.Element)
  : ET.Element :=
  match e with
  | ET.Elem t a x tl cs => ET.Elem t a x (f tl) (map (map_tails f) cs)
  end.

(** Every character is below 128. *)
Fixpoint is_ascii (s : string) : bool :=
  match s with
  | EmptyString => true
  | String c r => (nat_of_ascii c <? 128)%nat && is_ascii r
  end.

(** Text the serialiser writes as it is: characters below 128 other than
    the ampersand and the angle brackets. *)
Fixpoint plain_text (s : string) : bool :=
  match s with
  | EmptyString => true
  | String c r =>
      (nat_of_ascii c <? 128)%nat
      && negb (Ascii.eqb c "&") && negb (Ascii.eqb c "<")
      && negb (Ascii.eqb c ">") && plain_text r
  end.

(** * Properties *)

Unset Implicit Arguments.

(** ** Strings *)

Lemma prefix_append (p s : string) : prefix p (p ++ s) = true.
Proof.
  induction p as [|c p IH]; simpl.
  - now destruct s.
  - destruct (ascii_dec c c); [exact IH | congruence].
Qed.

Lemma prefix_head (c : ascii) (old' s : string) :
  has_char c s = false -> prefix (String c old') s = false.
Proof.
  destruct s as [|b s]; simpl; [reflexivity|].
  intros H. destruct (ascii_dec c b) as [->|]; [|reflexivity].
  now rewrite Ascii.eqb_refl in H.
Qed.

Lemma has_char_tail (c b : ascii) (s : string) :
  has_char c (String b s) = false -> has_char c s = false.
Proof. simpl. now destruct (Ascii.eqb b c). Qed.

Lemma replace_from_absent (c : ascii) (old' new s : string) :
  has_char c s = false -> replace_from (String c old') new 0 s = s.
Proof.
  induction s as [|b s IH]; intros H; [reflexivity|].
  cbn [replace_from]. rewrite (prefix_head _ old' _ H).
  now rewrite IH by exact (has_char_tail _ _ _ H).
Qed.

Lemma replace_from_skip (old new p s : string) :
  replace_from old new (String.length p) (p ++ s) = replace_from old new 0 s.
Proof. induction p as [|c p IH]; [reflexivity | exact IH]. Qed.

(** A string without the first character of [old] is left alone. *)
Lemma replace_absent (c : ascii) (old' new s : string) :
  has_char c s = false -> replace (String c old') new s = s.
Proof. apply replace_from_absent. Qed.

(** One leading occurrence of [old] is replaced. *)
Lemma replace_prefixed (c : ascii) (old' new s : string) :
  has_char c s = false ->
  replace (String c old') new (String c old' ++ s) = (new ++ s)%string.
Proof.
  intros H. unfold replace.
  change (String c old' ++ s)%string with (String c (old' ++ s)).
  cbn [replace_from].
  change (String c (old' ++ s)) with (String c old' ++ s)%string.
  rewrite prefix_append.
  cbn [String.length Nat.sub]. rewrite Nat.sub_0_r, replace_from_skip.
  now rewrite replace_from_absent.
Qed.

Lemma contains_absent (c : ascii) (old' s : string) :
  has_char c s = false -> contains (String c old') s = false.
Proof.
  induction s as [|b s IH]; intros H; [reflexivity|].
  cbn [contains]. rewrite (prefix_head _ old' _ H).
  exact (IH (has_char_tail _ _ _ H)).
Qed.

Lemma ns_head : exists rest, ns = String "{" rest.
Proof. eexists. reflexivity. Qed.

Lemma strip_ns_local (l : string) : local_name l = true -> strip_ns l = l.
Proof.
  unfold local_name, strip_ns. intros H. apply negb_true_iff in H.
  destruct ns_head as [rest ->]. now apply replace_absent.
Qed.

Lemma strip_ns_qualified (l : string) :
  local_name l = true -> strip_ns (ns ++ l) = l.
Proof.
  unfold local_name, strip_ns. intros H. apply negb_true_iff in H.
  destruct ns_head as [rest ->]. now rewrite replace_prefixed.
Qed.

Lemma local_name_no_ns (l : string) :
  local_name l = true -> contains ns l = false.
Proof.
  unfold local_name. intros H. apply negb_true_iff in H.
  destruct ns_head as [rest ->]. now apply contains_absent.
Qed.

Lemma strip_ns_uniform (t : string) :
  tag_uniform t -> local_name (strip_ns t) = true.
Proof.
  intros (l & Hl & [-> | ->]).
  - now rewrite strip_ns_local.
  - now rewrite strip_ns_qualified.
Qed.

(** ** Dicts *)

Section DictFacts.

Context {V : Type}.

Lemma dict_get_set (k k1 : string) (v : V) (m : dict V) :
  dict_get k (dict_set k1 v m)
  = if String.eqb k1 k then Some v else dict_get k m.
Proof.
  induction m as [|[k' v'] m IH]; simpl.
  - reflexivity.
  - destruct (String.eqb_spec k' k1) as [->|Hk]; simpl.
    + now destruct (String.eqb k1 k).
    + rewrite IH. destruct (String.eqb_spec k' k) as [->|]; [|reflexivity].
      destruct (String.eqb_spec k1 k); [congruence | reflexivity].
Qed.

Lemma dict_get_update (k : string) (items : list (string * V)) (m : dict V) :
  Forall (fun kv => fst kv <> k) items ->
  dict_get k (dict_update m items) = dict_get k m.
Proof.
  unfold dict_update. revert m.
  induction items as [|[k1 v1] items IH]; intros m H; simpl.
  - reflexivity.
  - inversion H as [|? ? H1 H2]; subst. rewrite (IH _ H2), dict_get_set.
    simpl in H1. now destruct (String.eqb_spec k1 k).
Qed.

Lemma dict_get_map {W : Type} (f : V -> W) (k : string) (m : dict V) :
  dict_get k (map (fun kv => (fst kv, f (snd kv))) m)
  = option_map f (dict_get k m).
Proof.
  induction m as [|[k' v'] m IH]; simpl; [reflexivity|].
  now destruct (String.eqb k' k).
Qed.

(** [dd[k1].append(x)] extends the list under [k1] and no other. *)
Lemma dict_get_dd_append (k k1 : string) (x : V) (dd : dict (list V)) :
  dict_get k (dd_append k1 x dd)
  = if String.eqb k1 k
    then Some (match dict_get k dd with Some l => l ++ [x] | None => [x] end)
    else dict_get k dd.
Proof.
  induction dd as [|[k' l] dd IH]; simpl.
  - reflexivity.
  - destruct (String.eqb_spec k' k1) as [->|Hk]; simpl.
    + now destruct (String.eqb k1 k).
    + rewrite IH. destruct (String.eqb_spec k' k) as [->|]; [|reflexivity].
      destruct (String.eqb_spec k1 k); [congruence | reflexivity].
Qed.

End DictFacts.

(** ** The decode fold *)

Lemma decode_single (e : ET.Element) :
  decode e = [(strip_ns (ET.tag e), value_of e)].
Proof. destruct e. reflexivity. Qed.

Lemma value_of_node t a x tl cs :
  value_of (ET.Elem t a x tl cs)
  = after_text x (nonempty cs || nonempty a)
      (after_attrib a (after_children a cs (map decode cs))).
Proof.
  unfold value_of, decode. cbn [etree_to_dict snd]. now rewrite map_map.
Qed.

Lemma tree_after_node t a x tl cs :
  tree_after (ET.Elem t a x tl cs)
  = ET.Elem (strip_ns t) a x tl (map tree_after cs).
Proof.
  unfold tree_after. cbn [etree_to_dict fst]. now rewrite map_map.
Qed.

(** [etree_to_dict] never binds its tag to a list. *)
Lemma value_of_not_list (e : ET.Element) : is_list (value_of e) = false.
Proof.
  destruct e as [t a x tl cs]. rewrite value_of_node.
  unfold after_text, after_attrib, after_children, value_update, value_setitem.
  destruct x as [s|]; [destruct (str_true s)|];
    destruct (nonempty cs), (nonempty a); simpl;
    try destruct (str_true (strip s)); reflexivity.
Qed.

(** Where a node has children or attributes, it decodes to a dict. *)
Lemma value_of_compound t a x tl cs :
  nonempty cs || nonempty a = true ->
  is_dict (value_of (ET.Elem t a x tl cs)) = true.
Proof.
  rewrite value_of_node.
  unfold after_text, after_attrib, after_children, value_update, value_setitem.
  destruct x as [s|]; [destruct (str_true s)|];
    destruct (nonempty cs), (nonempty a); simpl; intros H;
    try discriminate; try destruct (str_true (strip s)); reflexivity.
Qed.

(** The two loops of [etree_to_dict] see one item per child. *)
Lemma collect_child_items (w : value -> value) (cs : list ET.Element) :
  collect w (map decode cs)
  = fold_left (fun dd kv => dd_append (fst kv) (w (snd kv)) dd)
      (child_items cs) [].
Proof.
  unfold collect. generalize (@nil (string * list value)).
  induction cs as [|c cs IH]; intros acc; simpl; [reflexivity|].
  rewrite decode_single. simpl. apply IH.
Qed.

Lemma dict_get_appends (w : value -> value) (k : string)
  (kvs : list (string * value)) (acc : dict (list value)) :
  dict_get k
    (fold_left (fun dd kv => dd_append (fst kv) (w (snd kv)) dd) kvs acc)
  = extend (dict_get k acc)
      (map w (map snd (filter (fun kv => String.eqb (fst kv) k) kvs))).
Proof.
  revert acc. induction kvs as [|[k1 v1] kvs IH]; intros acc; simpl.
  - reflexivity.
  - rewrite IH, dict_get_dd_append.
    destruct (String.eqb k1 k); simpl; [|reflexivity].
    destruct (map w (map snd (filter _ kvs))) as [|y l];
      destruct (dict_get k acc) as [l0|]; simpl; try reflexivity.
    now rewrite <- app_assoc.
Qed.

Lemma child_items_tagged (k : string) (cs : list ET.Element) :
  map snd (filter (fun kv => String.eqb (fst kv) k) (child_items cs))
  = map value_of (children_tagged k cs).
Proof.
  induction cs as [|c cs IH]; simpl; [reflexivity|].
  destruct (String.eqb (strip_ns (ET.tag c)) k); simpl; now rewrite IH.
Qed.

(** What [dd] holds under [k] when the loops are done: the wrapped values
    of the children tagged [k], in document order. *)
Lemma collect_lookup (w : value -> value) (k : string) (cs : list ET.Element) :
  dict_get k (collect w (map decode cs))
  = match children_tagged k cs with
    | [] => None
    | l => Some (map w (map value_of l))
    end.
Proof.
  rewrite collect_child_items, dict_get_appends, child_items_tagged.
  now destruct (children_tagged k cs).
Qed.

Lemma after_children_lookup a (k : string) (cs : list ET.Element) :
  value_get k (after_children a cs (map decode cs))
  = match children_tagged k cs with
    | [] => None
    | l => Some (unwrap1 (map (wrap_of (first_is_rule cs)) (map value_of l)))
    end.
Proof.
  unfold after_children. destruct cs as [|c0 cs'].
  - simpl. now destruct (nonempty a).
  - cbn [nonempty value_get]. rewrite dict_get_map, collect_lookup.
    now destruct (children_tagged k (c0 :: cs')).
Qed.

Lemma attrib_items_keys (k : string) (a : dict string) :
  prefix "@" k = false -> Forall (fun kv => fst kv <> k) (attrib_items a).
Proof.
  intros Hk. unfold attrib_items. apply Forall_forall.
  intros kv Hin. apply in_map_iff in Hin as ([k1 v1] & <- & _).
  simpl. intros <-. destruct k1; discriminate Hk.
Qed.

Lemma after_attrib_lookup (k : string) (a : dict string) (v : value) :
  prefix "@" k = false ->
  value_get k (after_attrib a v) = value_get k v.
Proof.
  intros Hk. unfold after_attrib. destruct (nonempty a); [|reflexivity].
  destruct v; simpl; try reflexivity.
  now apply dict_get_update, attrib_items_keys.
Qed.

Lemma value_get_setitem (k k1 : string) (y v : value) :
  k1 <> k -> value_get k (value_setitem v k1 y) = value_get k v.
Proof.
  intros Hk. destruct v; simpl; try reflexivity.
  rewrite dict_get_set. now destruct (String.eqb_spec k1 k).
Qed.

Lemma child_key_spec (k : string) :
  child_key k = true -> prefix "@" k = false /\ "#text" <> k.
Proof.
  unfold child_key. intros H. apply andb_true_iff in H as [H1 H2].
  apply negb_true_iff in H1, H2. split; [exact H1|].
  intros <-. discriminate.
Qed.

(** The entry of a child tag in the decoded node: absent without such a
    child, else the children's values, each wrapped when the first child is
    a [Rule], and unwrapped to the single one when there is only one. *)
Lemma child_key_lookup t a x tl cs (k : string) :
  child_key k = true ->
  value_get k (value_of (ET.Elem t a x tl cs))
  = match children_tagged k cs with
    | [] => None
    | l => Some (unwrap1 (map (wrap_of (first_is_rule cs)) (map value_of l)))
    end.
Proof.
  intros Hk. apply child_key_spec in Hk as [Hat Htx].
  rewrite value_of_node, <- after_children_lookup with (a := a).
  rewrite <- (after_attrib_lookup k a
                (after_children a cs (map decode cs)) Hat).
  unfold after_text.
  destruct x as [s|]; [|reflexivity].
  destruct (str_true s); [|reflexivity].
  destruct (nonempty cs || nonempty a) eqn:Hc.
  - destruct (str_true (strip s)); [|reflexivity].
    now apply value_get_setitem.
  - apply orb_false_iff in Hc as [Hcs Ha].
    destruct cs; [|discriminate]. destruct a; [|discriminate].
    reflexivity.
Qed.

Lemma map_wrap_of_false (l : list value) : map (wrap_of false) l = l.
Proof. induction l as [|v l IH]; simpl; [reflexivity | now rewrite IH]. Qed.

(** *** The [Rule] wrapping *)

(** C1, as the code has it.  The wrapping is decided by the first child of a
    node, not tag by tag: under a node whose first child is tagged [Rule]
    every child tag that occurs exactly once, [Rule] or not, is bound to a
    single-element list holding that child's value; under a node whose first
    child is not tagged [Rule], a [Rule] child that occurs exactly once is
    bound to its value as it is, and one that occurs several times to the list
    of the per-occurrence values in document order; the key [Rule] is absent
    when no child is tagged [Rule]. *)
Theorem rule_wrapping_by_first_child t a x tl cs :
  let v := value_of (ET.Elem t a x tl cs) in
  (children_tagged "Rule" cs = [] -> value_get "Rule" v = None)
  /\ (forall k c,
        child_key k = true -> first_is_rule cs = true ->
        children_tagged k cs = [c] ->
        value_get k v = Some (VList [value_of c]))
  /\ (forall c,
        first_is_rule cs = false -> children_tagged "Rule" cs = [c] ->
        value_get "Rule" v = Some (value_of c))
  /\ (forall c1 c2 r,
        first_is_rule cs = false ->
        children_tagged "Rule" cs = c1 :: c2 :: r ->
        value_get "Rule" v = Some (VList (map value_of (c1 :: c2 :: r)))).
Proof.
  cbv zeta. repeat split.
  - intros H. now rewrite child_key_lookup, H.
  - intros k c Hk Hr H. now rewrite child_key_lookup, H, Hr.
  - intros c Hr H. now rewrite child_key_lookup, H, Hr.
  - intros c1 c2 r Hr H.
    now rewrite child_key_lookup, H, Hr, map_wrap_of_false.
Qed.

(** The four cases on small documents: no [Rule]; [Rule] first, with an
    [ID] after it; [Rule] second; two [Rule]s after an [ID]. *)
Lemma rule_wrapping_by_first_child_witness :
  let id := ET.Elem "ID" [] (Some "x") None [] in
  let r1 := ET.Elem "Rule" [] (Some "r1") None [] in
  let r2 := ET.Elem "Rule" [] (Some "r2") None [] in
  let doc cs := value_of (ET.Elem "Configuration" [] None None cs) in
  value_get "Rule" (doc [id]) = None
  /\ value_get "ID" (doc [r1; id]) = Some (VList [VStr "x"])
  /\ value_get "Rule" (doc [id; r1]) = Some (VStr "r1")
  /\ value_get "Rule" (doc [id; r1; r2]) = Some (VList [VStr "r1"; VStr "r2"]).
Proof.
  cbv zeta. split; [|split; [|split]].
  - apply (proj1 (rule_wrapping_by_first_child
                    "Configuration" [] None None
                    [ET.Elem "ID" [] (Some "x") None []])).
    reflexivity.
  - apply (proj1 (proj2 (rule_wrapping_by_first_child
                    "Configuration" [] None None
                    [ET.Elem "Rule" [] (Some "r1") None [];
                     ET.Elem "ID" [] (Some "x") None []]))
             "ID" (ET.Elem "ID" [] (Some "x") None []));
      reflexivity.
  - apply (proj1 (proj2 (proj2 (rule_wrapping_by_first_child
                    "Configuration" [] None None
                    [ET.Elem "ID" [] (Some "x") None [];
                     ET.Elem "Rule" [] (Some "r1") None []])))
             (ET.Elem "Rule" [] (Some "r1") None []));
      reflexivity.
  - apply (proj2 (proj2 (proj2 (rule_wrapping_by_first_child
                    "Configuration" [] None None
                    [ET.Elem "ID" [] (Some "x") None [];
                     ET.Elem "Rule" [] (Some "r1") None [];
                     ET.Elem "Rule" [] (Some "r2") None []])))
             (ET.Elem "Rule" [] (Some "r1") None [])
             (ET.Elem "Rule" [] (Some "r2") None []) []);
      reflexivity.
Defined.

(** C1 as stated fails.  A [Rule] that is the only [Rule] but not the first
    child is not wrapped; and an [ID] that follows a [Rule] is wrapped, so
    the wrapping is not reserved to the tag [Rule]. *)
Lemma rule_wrapping_counterexample :
  let id := ET.Elem "ID" [] (Some "x") None [] in
  let r1 := ET.Elem "Rule" [] (Some "r1") None [] in
  let doc cs := value_of (ET.Elem "Configuration" [] None None cs) in
  (children_tagged "Rule" [id; r1] = [r1]
   /\ value_get "Rule" (doc [id; r1]) <> Some (VList [value_of r1]))
  /\ (children_tagged "ID" [r1; id] = [id]
      /\ value_get "ID" (doc [r1; id]) = Some (VList [value_of id])).
Proof.
  cbv zeta. split; split; try reflexivity. vm_compute. discriminate.
Qed.

(** Two [Rule]s under a node whose first child is a [Rule]: each value is
    wrapped on its own, and the key is bound to a list of one-element
    lists. *)
Example decode_two_rules :
  decode (ET.Elem "LifecycleConfiguration" [] None None
            [ET.Elem "Rule" [] (Some "r1") None [];
             ET.Elem "Rule" [] (Some "r2") None []])
  = [("LifecycleConfiguration",
      VDict [("Rule", VList [VList [VStr "r1"]; VList [VStr "r2"]])])].
Proof. reflexivity. Qed.

(** *** Repeated tags *)

(** C2, as the code has it.  Under a node whose first child is not tagged
    [Rule], a child tag (an XML name) that occurs exactly once is bound to
    that child's value, which is [None], a string or a dict and never a
    list; one that occurs two or more times is bound to the list of the
    per-occurrence values in document order. *)
Theorem repeated_tag_collapse t a x tl cs k :
  child_key k = true ->
  first_is_rule cs = false ->
  let v := value_of (ET.Elem t a x tl cs) in
  (forall c, children_tagged k cs = [c] ->
             value_get k v = Some (value_of c)
             /\ is_list (value_of c) = false)
  /\ (forall c1 c2 r,
        children_tagged k cs = c1 :: c2 :: r ->
        value_get k v = Some (VList (map value_of (c1 :: c2 :: r)))).
Proof.
  intros Hk Hr. cbv zeta. split.
  - intros c H. split; [|apply value_of_not_list].
    now rewrite child_key_lookup, H, Hr.
  - intros c1 c2 r H.
    now rewrite child_key_lookup, H, Hr, map_wrap_of_false.
Qed.

Lemma repeated_tag_collapse_witness :
  let ev s := ET.Elem "Event" [] (Some s) None [] in
  let id := ET.Elem "Id" [] (Some "n1") None [] in
  let v := value_of (ET.Elem "TopicConfiguration" [] None None
                       [id; ev "put"; ev "copy"]) in
  value_get "Id" v = Some (VStr "n1")
  /\ value_get "Event" v = Some (VList [VStr "put"; VStr "copy"]).
Proof.
  cbv zeta. split.
  - apply (proj1 (repeated_tag_collapse
                    "TopicConfiguration" [] None None
                    [ET.Elem "Id" [] (Some "n1") None [];
                     ET.Elem "Event" [] (Some "put") None [];
                     ET.Elem "Event" [] (Some "copy") None []]
                    "Id" eq_refl eq_refl)
             (ET.Elem "Id" [] (Some "n1") None [])).
    reflexivity.
  - apply (proj2 (repeated_tag_collapse
                    "TopicConfiguration" [] None None
                    [ET.Elem "Id" [] (Some "n1") None [];
                     ET.Elem "Event" [] (Some "put") None [];
                     ET.Elem "Event" [] (Some "copy") None []]
                    "Event" eq_refl eq_refl)
             (ET.Elem "Event" [] (Some "put") None [])
             (ET.Elem "Event" [] (Some "copy") None []) []).
    reflexivity.
Defined.

(** C2 as stated fails: an [ID] that occurs once after a [Rule] is bound to
    a list. *)
Lemma repeated_tag_counterexample :
  let id := ET.Elem "ID" [] (Some "x") None [] in
  let r1 := ET.Elem "Rule" [] (Some "r1") None [] in
  let v := value_of (ET.Elem "Configuration" [] None None [r1; id]) in
  "ID" <> "Rule"
  /\ children_tagged "ID" [r1; id] = [id]
  /\ value_get "ID" v = Some (VList [VStr "x"])
  /\ is_list (VList [VStr "x"]) = true.
Proof. cbv zeta. split; [discriminate | repeat split]. Qed.

(** *** What the fold does to its input *)

(** C3, as the code has it.  [etree_to_dict] assigns to [elem.tag] at every
    node: the tree the caller is left with is the input with every tag
    replaced by its namespace-stripped form; attributes, text, tail and the
    children's order are as before. *)
Theorem etree_to_dict_strips_tags_in_place (elem : ET.Element) :
  tree_after elem = map_tags strip_ns elem.
Proof.
  induction elem as [t a x tl cs IH] using Element_forest_ind.
  rewrite tree_after_node. cbn [map_tags]. f_equal.
  induction IH as [|c cs Hc _ IHcs]; simpl; [reflexivity|].
  now rewrite Hc, IHcs.
Qed.

(** C3 as stated fails: the tag of a namespaced node is not the same after
    the call as before. *)
Lemma etree_to_dict_pure_counterexample :
  let elem := ET.Elem (ns ++ "Rule") [] None None [] in
  ET.tag elem = "{http://s3.amazonaws.com/doc/2006-03-01/}Rule"
  /\ ET.tag (tree_after elem) = "Rule"
  /\ ET.tag (tree_after elem) <> ET.tag elem.
Proof.
  cbv zeta. split; [|split]; [reflexivity | reflexivity |]. discriminate.
Qed.


(** *** Text *)

Lemma str_true_iff (s : string) : str_true s = true <-> s <> "".
Proof. destruct s; simpl; split; congruence. Qed.

Lemma nonempty_iff {A : Type} (l : list A) : nonempty l = true <-> l <> [].
Proof. destruct l; simpl; split; congruence. Qed.

Lemma compound_is_dict a cs :
  nonempty cs || nonempty a = true ->
  is_dict (after_attrib a (after_children a cs (map decode cs))) = true.
Proof.
  unfold after_attrib, after_children, value_update.
  destruct (nonempty cs), (nonempty a); simpl; intros H;
    try discriminate; reflexivity.
Qed.

(** The [#text] entry of a decoded node without a child tagged [#text]. *)
Lemma text_key_lookup t a x tl cs :
  children_tagged "#text" cs = [] ->
  value_get "#text" (value_of (ET.Elem t a x tl cs))
  = match x with
    | Some s =>
        if str_true (strip s) && (nonempty cs || nonempty a)
        then Some (VStr (strip s)) else None
    | None => None
    end.
Proof.
  intros Hcs.
  assert (H2 : value_get "#text"
                 (after_attrib a (after_children a cs (map decode cs)))
               = None).
  { rewrite after_attrib_lookup by reflexivity.
    now rewrite after_children_lookup, Hcs. }
  rewrite value_of_node. unfold after_text.
  destruct x as [s|]; [|exact H2].
  destruct (str_true s) eqn:Hs.
  - destruct (nonempty cs || nonempty a) eqn:Hc.
    + destruct (str_true (strip s)); [|exact H2]. simpl.
      pose proof (compound_is_dict a cs Hc) as Hd.
      destruct (after_attrib a (after_children a cs (map decode cs)));
        try discriminate Hd.
      simpl. rewrite dict_get_set. reflexivity.
    + now rewrite andb_false_r.
  - destruct s; [|discriminate Hs]. exact H2.
Qed.

(** C4.  In a decoded element no child of which is tagged [#text] (no XML
    name is), the result has the key [#text] if and only if the text of the
    element is non-empty after trimming and the element has attributes or
    children, and the key then holds the trimmed text; an element with
    neither attributes nor children decodes to its trimmed text, or to
    [None] when its text is absent ([None] or empty). *)
Theorem text_key_iff t a x tl cs :
  children_tagged "#text" cs = [] ->
  let v := value_of (ET.Elem t a x tl cs) in
  (has_key "#text" v = true
   <-> (exists s, x = Some s /\ strip s <> "") /\ (a <> [] \/ cs <> []))
  /\ (forall s, x = Some s -> has_key "#text" v = true ->
                value_get "#text" v = Some (VStr (strip s)))
  /\ (a = [] -> cs = [] ->
      v = match x with
          | Some (String c s) => VStr (strip (String c s))
          | _ => VNone
          end).
Proof.
  intros Hcs. cbv zeta. unfold has_key. rewrite (text_key_lookup _ _ _ _ _ Hcs).
  split; [|split].
  - destruct x as [s|].
    + destruct (str_true (strip s)) eqn:Hs; simpl.
      * destruct (nonempty cs || nonempty a) eqn:Hc.
        -- split; [intros _|reflexivity]. split.
           ++ exists s. split; [reflexivity|]. now apply str_true_iff.
           ++ apply orb_true_iff in Hc as [Hc|Hc];
                apply nonempty_iff in Hc; tauto.
        -- split; [discriminate|]. intros [_ [Ha|Hc']].
           ++ apply nonempty_iff in Ha. rewrite Ha, orb_true_r in Hc.
              discriminate.
           ++ apply nonempty_iff in Hc'. rewrite Hc' in Hc. discriminate.
      * split; [discriminate|]. intros [(s' & [= <-] & Hne) _].
        apply str_true_iff in Hne. congruence.
    + split; [discriminate|]. intros [(s' & [=] & _) _].
  - intros s ->.
    now destruct (str_true (strip s) && (nonempty cs || nonempty a)).
  - intros -> ->. rewrite value_of_node. now destruct x as [[|c s]|].
Qed.

Lemma text_key_iff_witness :
  let key := ET.Elem "Key" [] (Some " a.txt ") None [] in
  let v := value_of (ET.Elem "Object" [("id", "7")] (Some " note ") None
                       [key]) in
  has_key "#text" v = true
  /\ value_get "#text" v = Some (VStr "note")
  /\ value_of key = VStr "a.txt".
Proof.
  cbv zeta.
  pose proof (text_key_iff "Object" [("id", "7")] (Some " note ") None
                [ET.Elem "Key" [] (Some " a.txt ") None []] eq_refl)
    as (Hiff & Hval & _).
  pose proof (text_key_iff "Key" [] (Some " a.txt ") None [] eq_refl)
    as (_ & _ & Hleaf).
  cbv zeta in Hiff, Hval, Hleaf.
  assert (Hk : has_key "#text"
                 (value_of (ET.Elem "Object" [("id", "7")] (Some " note ")
                              None [ET.Elem "Key" [] (Some " a.txt ") None []]))
               = true).
  { apply Hiff. split.
    - exists " note ". split; [reflexivity | discriminate].
    - left. discriminate. }
  split; [exact Hk|]. split.
  - exact (Hval " note " eq_refl Hk).
  - exact (Hleaf eq_refl eq_refl).
Defined.

(** *** Keys of the decoded mapping *)

Section KeysInvariant.

Variable P : string -> Prop.

Lemma keys_ok_dict (d : dict value) :
  keys_ok P (VDict d) <-> Forall (entry_ok P) d.
Proof.
  unfold keys_ok, entry_ok. cbn [value_keys]. rewrite Forall_flat_map.
  split; intros H; (eapply Forall_impl; [|exact H]);
    intros [k v]; simpl; apply Forall_cons_iff.
Qed.

Lemma keys_ok_list (l : list value) :
  keys_ok P (VList l) <-> Forall (keys_ok P) l.
Proof. unfold keys_ok. cbn [value_keys]. apply Forall_flat_map. Qed.

Lemma dict_set_ok (k : string) (v : value) (m : dict value) :
  entry_ok P (k, v) -> Forall (entry_ok P) m ->
  Forall (entry_ok P) (dict_set k v m).
Proof.
  intros Hkv. induction 1 as [|[k' v'] m Hx Hm IH]; simpl.
  - now constructor.
  - destruct (String.eqb_spec k' k) as [->|]; constructor; auto.
Qed.

Lemma dict_update_ok (items : list (string * value)) (m : dict value) :
  Forall (entry_ok P) items -> Forall (entry_ok P) m ->
  Forall (entry_ok P) (dict_update m items).
Proof.
  unfold dict_update. intros Hi. revert m.
  induction Hi as [|[k v] items Hx Hi IH]; intros m Hm; simpl; [exact Hm|].
  apply IH. now apply dict_set_ok.
Qed.

Lemma dd_append_ok (k : string) (x : value) (dd : dict (list value)) :
  P k -> keys_ok P x -> Forall (group_ok P) dd ->
  Forall (group_ok P) (dd_append k x dd).
Proof.
  intros Hk Hx. induction 1 as [|[k' l] dd [Hk' Hl] Hdd IH]; simpl.
  - constructor; [|constructor]. split; [exact Hk|]. now constructor.
  - destruct (String.eqb_spec k' k) as [->|]; constructor; auto.
    + split; [exact Hk|]. simpl. apply Forall_app. split; [exact Hl|].
      now constructor.
    + now split.
Qed.

Lemma collect_ok (w : value -> value) (dcs : list (dict value)) :
  (forall v, keys_ok P v -> keys_ok P (w v)) ->
  Forall (Forall (entry_ok P)) dcs ->
  Forall (group_ok P) (collect w dcs).
Proof.
  intros Hw Hdcs. unfold collect.
  assert (Hacc : Forall (group_ok P) (@nil (string * list value)))
    by constructor.
  revert Hacc. generalize (@nil (string * list value)) as acc.
  induction Hdcs as [|dc dcs Hdc _ IH]; intros acc Hacc; simpl.
  - exact Hacc.
  - apply IH. clear IH. revert acc Hacc.
    induction Hdc as [|[k v] dc [Hk Hv] _ IHdc]; intros acc Hacc; simpl.
    + exact Hacc.
    + apply IHdc. apply dd_append_ok; auto.
Qed.

Lemma unwrap1_ok (l : list value) :
  Forall (keys_ok P) l -> keys_ok P (unwrap1 l).
Proof.
  intros H. destruct l as [|v [|v' l]]; simpl.
  - now apply keys_ok_list.
  - now inversion H.
  - now apply keys_ok_list.
Qed.

Lemma wrap_of_ok (b : bool) (v : value) :
  keys_ok P v -> keys_ok P (wrap_of b v).
Proof.
  intros H. destruct b; simpl; [|exact H].
  apply keys_ok_list. now constructor.
Qed.

Lemma after_children_ok a cs (dcs : list (dict value)) :
  Forall (Forall (entry_ok P)) dcs -> keys_ok P (after_children a cs dcs).
Proof.
  intros H. unfold after_children.
  destruct (nonempty cs); [|destruct (nonempty a); constructor].
  apply keys_ok_dict, Forall_map.
  eapply Forall_impl; [|apply (collect_ok _ _ (wrap_of_ok _) H)].
  intros [k l] [Hk Hl]. split; [exact Hk|]. now apply unwrap1_ok.
Qed.

Lemma after_attrib_ok (a : dict string) (v : value) :
  Forall (fun kv => P ("@" ++ fst kv)) a ->
  keys_ok P v -> keys_ok P (after_attrib a v).
Proof.
  intros Ha Hv. unfold after_attrib. destruct (nonempty a); [|exact Hv].
  destruct v; simpl; try exact Hv.
  apply keys_ok_dict, dict_update_ok; [|now apply keys_ok_dict].
  unfold attrib_items. apply Forall_map.
  eapply Forall_impl; [|exact Ha].
  intros [k s] Hk. split; [exact Hk | constructor].
Qed.

Lemma after_text_ok x (c : bool) (v : value) :
  P "#text" -> keys_ok P v -> keys_ok P (after_text x c v).
Proof.
  intros Ht Hv. unfold after_text.
  destruct x as [s|]; [|exact Hv].
  destruct (str_true s); [|exact Hv].
  destruct c; [|constructor].
  destruct (str_true (strip s)); [|exact Hv].
  destruct v; simpl; try exact Hv.
  apply keys_ok_dict, dict_set_ok; [|now apply keys_ok_dict].
  split; [exact Ht | constructor].
Qed.

(** If [P] holds of [#text], of every stripped tag and of every attribute
    key, it holds of every key of the decoded mapping. *)
Lemma decode_keys_ok (Q : ET.Element -> Prop) :
  P "#text" ->
  (forall t a x tl cs,
      Q (ET.Elem t a x tl cs) ->
      P (strip_ns t)
      /\ Forall (fun kv => P ("@" ++ fst kv)) a
      /\ Forall Q cs) ->
  forall elem, Q elem -> Forall P (decode_keys elem).
Proof.
  intros Ht HQ elem.
  induction elem as [t a x tl cs IH] using Element_forest_ind.
  intros Hq. destruct (HQ _ _ _ _ _ Hq) as (Htag & Hattr & Hcs).
  unfold decode_keys. fold (keys_ok P (VDict (decode (ET.Elem t a x tl cs)))).
  rewrite decode_single. apply keys_ok_dict. constructor; [|constructor].
  split; [exact Htag|]. cbn [snd]. rewrite value_of_node.
  apply after_text_ok; [exact Ht|].
  apply after_attrib_ok; [exact Hattr|].
  apply after_children_ok, Forall_map.
  clear Hq. induction IH as [|c cs' Hc _ IHcs]; [constructor|].
  inversion Hcs as [|? ? Hq1 Hq2]; subst.
  constructor; [|exact (IHcs Hq2)].
  apply keys_ok_dict. exact (Hc Hq1).
Qed.

End KeysInvariant.

Lemma local_name_at (k : string) :
  local_name k = true -> local_name ("@" ++ k) = true.
Proof. intros H. exact H. Qed.

Lemma tree_after_uniform (elem : ET.Element) :
  uniform_ns elem -> local_tags (tree_after elem) = true.
Proof.
  induction elem as [t a x tl cs IH] using Element_forest_ind.
  intros H. inversion H as [? ? ? ? ? Ht _ Hcs]; subst.
  rewrite tree_after_node. cbn [local_tags].
  rewrite (strip_ns_uniform _ Ht). simpl.
  induction IH as [|c cs' Hc _ IHcs]; [reflexivity|].
  inversion Hcs as [|? ? H1 H2]; subst. simpl.
  rewrite (Hc H1). simpl. apply IHcs; [|exact H2].
  constructor; [exact Ht | | exact H2].
  now inversion H.
Qed.

(** Where every tag is a local name or [ns] followed by one and every
    attribute name is a local name, no key of the decoded mapping, at any
    depth, contains [ns], and no tag of the tree is left with a brace. *)
Lemma decode_keys_namespace_free (elem : ET.Element) :
  uniform_ns elem ->
  Forall (fun k => contains ns k = false) (decode_keys elem)
  /\ local_tags (tree_after elem) = true.
Proof.
  intros H. split; [|now apply tree_after_uniform].
  revert elem H. apply decode_keys_ok; [reflexivity|].
  intros t a x tl cs H. inversion H as [? ? ? ? ? Ht Ha Hcs]; subst.
  split; [|split; [|exact Hcs]].
  - now apply local_name_no_ns, strip_ns_uniform.
  - eapply Forall_impl; [|exact Ha]. intros [k s] Hk.
    now apply local_name_no_ns, local_name_at.
Qed.

(** Attribute names are not stripped: a qualified one keeps its prefix. *)
Example decode_qualified_attribute :
  decode (ET.Elem (ns ++ "Grantee") [((ns ++ "type")%string, "Group")]
            None None [])
  = [("Grantee",
      VDict [("@{http://s3.amazonaws.com/doc/2006-03-01/}type",
              VStr "Group")])].
Proof. reflexivity. Qed.

Lemma decode_keys_namespace_free_witness :
  let doc :=
    ET.Elem (ns ++ "ListBucketResult") [] None None
      [ET.Elem (ns ++ "Name") [] (Some "bucket") None [];
       ET.Elem (ns ++ "Contents") [("id", "1")] None None
         [ET.Elem (ns ++ "Key") [] (Some "a.txt") None []]] in
  decode_keys doc = ["ListBucketResult"; "Name"; "Contents"; "Key"; "@id"]
  /\ Forall (fun k => contains ns k = false) (decode_keys doc).
Proof.
  cbv zeta. split; [reflexivity|].
  apply decode_keys_namespace_free.
  assert (Htag : forall l, local_name l = true -> tag_uniform (ns ++ l)).
  { intros l Hl. exists l. split; [exact Hl | now right]. }
  repeat (constructor; try (apply Htag; reflexivity); try reflexivity).
Defined.


(** ** Tree building *)

Lemma map_nth_last {A : Type} (f : A -> A) (l : list A) (x : A) :
  ET.map_nth (List.length l) f (l ++ [x]) = l ++ [f x].
Proof. induction l as [|y l IH]; simpl; [reflexivity | now rewrite IH]. Qed.

Lemma nth_error_last {A : Type} (l : list A) (x : A) :
  nth_error (l ++ [x]) (List.length l) = Some x.
Proof. induction l as [|y l IH]; simpl; [reflexivity | exact IH]. Qed.

Lemma update_at_last p f t a x tl cs c :
  ET.update_at (List.length cs :: p) f (ET.Elem t a x tl (cs ++ [c]))
  = ET.Elem t a x tl (cs ++ [ET.update_at p f c]).
Proof. cbn [ET.update_at]. now rewrite map_nth_last. Qed.

Lemma node_at_last p t a x tl cs c :
  ET.node_at (List.length cs :: p) (ET.Elem t a x tl (cs ++ [c]))
  = ET.node_at p c.
Proof. cbn [ET.node_at ET.children]. now rewrite nth_error_last. Qed.

(** [SubElement(root, tag, text)]: the new node is the last child of the
    root. *)
Lemma SubElement_root tg txt t a x tl cs :
  SubElement root tg txt (ET.Elem t a x tl cs)
  = Ok ([List.length cs],
        ET.Elem t a x tl (cs ++ [ET.Elem tg [] txt None []])).
Proof.
  unfold SubElement, root, ET.bind, ET.SubElement, ET.set_text, ET.ret.
  cbn [ET.node_at ET.children ET.update_at ET.append ET.new app].
  destruct txt as [s|]; [|reflexivity].
  now rewrite map_nth_last.
Qed.

(** [SubElement] on a node below the last child of the root works on that
    child and leaves the rest of the root alone. *)
Lemma SubElement_under_last p tg txt t a x tl cs c :
  SubElement (List.length cs :: p) tg txt (ET.Elem t a x tl (cs ++ [c]))
  = match SubElement p tg txt c with
    | Ok (r, c') => Ok (List.length cs :: r, ET.Elem t a x tl (cs ++ [c']))
    | Raise e => Raise e
    end.
Proof.
  unfold SubElement, ET.bind, ET.SubElement, ET.set_text, ET.ret.
  rewrite node_at_last, update_at_last.
  destruct txt as [s|]; [|reflexivity].
  rewrite <- app_comm_cons. now rewrite update_at_last.
Qed.

(** ** Marshallers *)

(** The loop of [xml_marshal_complete_multipart_upload] appends one [Part]
    per uploaded part to the children of the root. *)
Lemma complete_multipart_upload_loop uploaded_parts t a x tl cs :
  for_each uploaded_parts (fun uploaded_part =>
    part <- SubElement root "Part" None ;;
    SubElement part "PartNumber"
      (Some (str_of_int (part_number uploaded_part))) ;;;
    SubElement part "ETag"
      (Some (ET.dquote ++ etag uploaded_part ++ ET.dquote)%string) ;;;
    ET.ret tt) (ET.Elem t a x tl cs)
  = Ok (tt,
        ET.Elem t a x tl
          (cs ++ map (fun p =>
                        ET.Elem "Part" [] None None
                          [ET.Elem "PartNumber" []
                             (Some (str_of_int (part_number p))) None [];
                           ET.Elem "ETag" []
                             (Some (ET.dquote ++ etag p ++ ET.dquote)%string)
                             None []])
                 uploaded_parts)).
Proof.
  revert cs. induction uploaded_parts as [|p ps IH]; intros cs.
  - simpl. now rewrite app_nil_r.
  - cbn [for_each map]. unfold ET.bind at 1. unfold ET.bind at 1.
    rewrite SubElement_root. unfold ET.bind at 1.
    rewrite SubElement_under_last, (SubElement_root _ _ "Part").
    unfold ET.bind at 1.
    rewrite SubElement_under_last, (SubElement_root _ _ "Part").
    cbn [ET.ret app]. rewrite IH, <- app_assoc. reflexivity.
Qed.

(** C7.  The root built for an uploaded-part list has one [Part] child per
    part, in the order of the list, each with a [PartNumber] and an [ETag]
    whose text is the digest between two double-quote characters; the
    marshaller returns the bytes of that tree; and for [(1, abc), (2, def)]
    these are two [Part] elements in that order with the quoted digests. *)
Theorem complete_multipart_upload_parts :
  (forall uploaded_parts,
      xml_marshal_complete_multipart_upload_root uploaded_parts
      = Ok (ET.Elem "CompleteMultipartUpload" [("xmlns", _S3_NAMESPACE)]
              None None
              (map (fun p =>
                      ET.Elem "Part" [] None None
                        [ET.Elem "PartNumber" []
                           (Some (str_of_int (part_number p))) None [];
                         ET.Elem "ETag" []
                           (Some (ET.dquote ++ etag p ++ ET.dquote)%string)
                           None []])
                 uploaded_parts))
      /\ xml_marshal_complete_multipart_upload uploaded_parts
         = result_map get_xml_data
             (xml_marshal_complete_multipart_upload_root uploaded_parts))
  /\ xml_marshal_complete_multipart_upload
       [{| part_number := 1; etag := "abc" |};
        {| part_number := 2; etag := "def" |}]
     = Ok ("<CompleteMultipartUpload xmlns=" ++ ET.dquote ++ _S3_NAMESPACE
           ++ ET.dquote ++ ">"
           ++ "<Part><PartNumber>1</PartNumber><ETag>"
           ++ ET.dquote ++ "abc" ++ ET.dquote ++ "</ETag></Part>"
           ++ "<Part><PartNumber>2</PartNumber><ETag>"
           ++ ET.dquote ++ "def" ++ ET.dquote ++ "</ETag></Part>"
           ++ "</CompleteMultipartUpload>")%string.
Proof.
  split; [|reflexivity].
  intros uploaded_parts. split; [|reflexivity].
  unfold xml_marshal_complete_multipart_upload_root, ET.built.
  unfold Element, ET.new.
  now rewrite complete_multipart_upload_loop.
Qed.

(** The loop of [xml_marshal_delete_objects] appends one [Object] holding a
    [Key] per object name to the children of the root. *)
Lemma delete_objects_loop object_names t a x tl cs :
  for_each object_names (fun object_name =>
    object <- SubElement root "Object" None ;;
    SubElement object "Key" (Some object_name) ;;;
    ET.ret tt) (ET.Elem t a x tl cs)
  = Ok (tt,
        ET.Elem t a x tl
          (cs ++ map (fun n =>
                        ET.Elem "Object" [] None None
                          [ET.Elem "Key" [] (Some n) None []])
                 object_names)).
Proof.
  revert cs. induction object_names as [|n ns' IH]; intros cs.
  - simpl. now rewrite app_nil_r.
  - cbn [for_each map]. unfold ET.bind at 1. unfold ET.bind at 1.
    rewrite SubElement_root. unfold ET.bind at 1.
    rewrite SubElement_under_last, (SubElement_root _ _ "Object").
    cbn [ET.ret app]. rewrite IH, <- app_assoc. reflexivity.
Qed.

(** C8.  The root built for an object-name list is [Delete], with [Quiet]
    holding [true] as its first child, followed by one [Object] with one
    [Key] per name, in the order of the list and with every repetition
    kept; and for the names [a.txt], [b.txt] the marshaller returns exactly
    the bytes of the scenario. *)
Theorem delete_objects_quiet_then_keys :
  (forall object_names,
      xml_marshal_delete_objects_root object_names
      = Ok (ET.Elem "Delete" [] None None
              (ET.Elem "Quiet" [] (Some "true") None []
               :: map (fun n =>
                         ET.Elem "Object" [] None None
                           [ET.Elem "Key" [] (Some n) None []])
                    object_names))
      /\ xml_marshal_delete_objects object_names
         = result_map get_xml_data
             (xml_marshal_delete_objects_root object_names))
  /\ xml_marshal_delete_objects ["a.txt"; "b.txt"]
     = Ok ("<Delete><Quiet>true</Quiet>"
           ++ "<Object><Key>a.txt</Key></Object>"
           ++ "<Object><Key>b.txt</Key></Object></Delete>")%string.
Proof.
  split; [|reflexivity].
  intros object_names. split; [|reflexivity].
  unfold xml_marshal_delete_objects_root, ET.built.
  unfold Element, ET.new. unfold ET.bind at 1.
  rewrite SubElement_root. cbn [app].
  now rewrite delete_objects_loop.
Qed.



(** On a CSV request without compression the marshaller writes these
    bytes. *)
Example xml_marshal_select_csv :
  xml_marshal_select
    {| expression := "select * from s3object";
       in_ser := {| compression_type := "NONE";
                    csv_input :=
                      Some {| CSVInput.FileHeaderInfo := "USE";
                              CSVInput.RecordDelimiter := ";";
                              CSVInput.FieldDelimiter := ",";
                              CSVInput.QuoteCharacter := "'";
                              CSVInput.QuoteEscapeCharacter := "'";
                              CSVInput.Comments := "#";
                              CSVInput.AllowQuotedRecordDelimiter := "FALSE" |};
                    json_input := None;
                    parquet_input := None |};
       out_ser := {| csv_output := None;
                     json_output :=
                       Some {| JSONOutput.RecordDelimiter := ";" |} |};
       req_progress := {| enabled := "TRUE" |} |}
  = Ok ("<SelectObjectContentRequest>"
        ++ "<Expression>select * from s3object</Expression>"
        ++ "<ExpressionType>SQL</ExpressionType>"
        ++ "<InputSerialization><CompressionType>NONE</CompressionType>"
        ++ "<CSV><FileHeaderInfo>USE</FileHeaderInfo>"
        ++ "<RecordDelimiter>;</RecordDelimiter>"
        ++ "<FieldDelimiter>,</FieldDelimiter>"
        ++ "<QuoteCharacter>'</QuoteCharacter>"
        ++ "<QuoteEscapeCharacter>'</QuoteEscapeCharacter>"
        ++ "<Comments>#</Comments>"
        ++ "<AllowQuotedRecordDelimiter>false</AllowQuotedRecordDelimiter>"
        ++ "</CSV></InputSerialization>"
        ++ "<OutputSerialization><JSON>"
        ++ "<RecordDelimiter>;</RecordDelimiter></JSON></OutputSerialization>"
        ++ "<RequestProgress><Enabled>true</Enabled></RequestProgress>"
        ++ "</SelectObjectContentRequest>")%string.
Proof. reflexivity. Qed.

(** The region marshalled as the scenario has it. *)
Example xml_marshal_bucket_constraint_region :
  xml_marshal_bucket_constraint (Some "us-west-1")
  = Ok ("<CreateBucketConfiguration xmlns=" ++ ET.dquote ++ _S3_NAMESPACE
        ++ ET.dquote ++ ">"
        ++ "<LocationConstraint>us-west-1</LocationConstraint>"
        ++ "</CreateBucketConfiguration>")%string.
Proof. reflexivity. Qed.


(** Without rules the root has no child. *)
Example xml_marshal_bucket_encryption_no_rule :
  xml_marshal_bucket_encryption [] = Ok "<ServerSideEncryptionConfiguration />".
Proof. reflexivity. Qed.

(** ** Bucket notifications *)

Lemma SubElement_under_only p tg txt t a x tl c :
  SubElement (0 :: p) tg txt (ET.Elem t a x tl [c])
  = match SubElement p tg txt c with
    | Ok (r, c') => Ok (0 :: r, ET.Elem t a x tl [c'])
    | Raise e => Raise e
    end.
Proof. exact (SubElement_under_last p tg txt t a x tl [] c). Qed.

(** The loop over the events of a config, the config being the last child
    of the root. *)
Lemma events_loop events t a x tl cs tg' a' x' tl' ccs :
  for_each events (fun event =>
    SubElement [List.length cs] "Event" (Some event) ;;; ET.ret tt)
    (ET.Elem t a x tl (cs ++ [ET.Elem tg' a' x' tl' ccs]))
  = Ok (tt,
        ET.Elem t a x tl
          (cs ++ [ET.Elem tg' a' x' tl' (ccs ++ map (leaf "Event") events)])).
Proof.
  revert ccs. induction events as [|e es IH]; intros ccs.
  - simpl. now rewrite app_nil_r.
  - cbn [for_each map]. unfold ET.bind at 1. unfold ET.bind at 1.
    rewrite SubElement_under_last, SubElement_root.
    cbn [ET.ret]. rewrite IH, <- app_assoc. reflexivity.
Qed.

(** The loop over the filter rules of a config: the [S3Key] node is the only
    child of [Filter], the last child of the config, the last child of the
    root. *)
Lemma filter_rules_loop rules t a x tl cs tg' a' x' tl' ccs
  tf af xf tlf ts as_ xs tls rs :
  for_each rules (fun filter_rule =>
    filter_rule_node <-
      SubElement [List.length cs; List.length ccs; 0] "FilterRule" None ;;
    name <- getitem filter_rule "Name" ;;
    SubElement filter_rule_node "Name" (Some name) ;;;
    value <- getitem filter_rule "Value" ;;
    SubElement filter_rule_node "Value" (Some value) ;;;
    ET.ret tt)
    (ET.Elem t a x tl
       (cs ++ [ET.Elem tg' a' x' tl'
                 (ccs ++ [ET.Elem tf af xf tlf [ET.Elem ts as_ xs tls rs]])]))
  = match result_all filter_rule_element rules with
    | Ok els =>
        Ok (tt,
            ET.Elem t a x tl
              (cs ++ [ET.Elem tg' a' x' tl'
                        (ccs ++ [ET.Elem tf af xf tlf
                                   [ET.Elem ts as_ xs tls (rs ++ els)]])]))
    | Raise e => Raise e
    end.
Proof.
  revert rs. induction rules as [|r rules IH]; intros rs.
  - simpl. now rewrite app_nil_r.
  - cbn [for_each result_all]. unfold ET.bind at 1. unfold ET.bind at 1.
    rewrite !SubElement_under_last, SubElement_under_only, SubElement_root.
    unfold filter_rule_element at 1. unfold getitem.
    unfold ET.bind at 1.
    destruct (dict_get "Name" r) as [name|]; [|reflexivity].
    unfold ET.ret at 1. unfold ET.bind at 1.
    rewrite !SubElement_under_last, SubElement_under_only.
    rewrite SubElement_under_last, SubElement_root.
    unfold ET.bind at 1.
    destruct (dict_get "Value" r) as [value|]; [|reflexivity].
    unfold ET.ret at 1. unfold ET.bind at 1.
    rewrite !SubElement_under_last, SubElement_under_only.
    rewrite SubElement_under_last, SubElement_root.
    cbn [ET.ret app]. rewrite IH.
    destruct (result_all filter_rule_element rules) as [els|e];
      [|reflexivity].
    now rewrite <- app_assoc.
Qed.

(** A loop whose body appends one element to the root, or raises, appends
    the elements of the whole list, or raises at the first failure. *)
Lemma for_each_appends {A : Type} (f : A -> result ET.Element)
  (body : A -> ET.Build unit) (xs : list A) t a x tl :
  (forall y cs,
      body y (ET.Elem t a x tl cs)
      = match f y with
        | Ok el => Ok (tt, ET.Elem t a x tl (cs ++ [el]))
        | Raise e => Raise e
        end) ->
  forall cs,
    for_each xs body (ET.Elem t a x tl cs)
    = match result_all f xs with
      | Ok els => Ok (tt, ET.Elem t a x tl (cs ++ els))
      | Raise e => Raise e
      end.
Proof.
  intros Hbody. induction xs as [|y xs IH]; intros cs.
  - simpl. now rewrite app_nil_r.
  - cbn [for_each result_all]. unfold ET.bind at 1. rewrite Hbody.
    destruct (f y) as [el|e]; [|reflexivity].
    rewrite IH. destruct (result_all f xs) as [els|e]; [|reflexivity].
    now rewrite <- app_assoc.
Qed.

Lemma config_body element_name config t a x tl cs :
  (config_node <- SubElement root element_name None ;;
   match NotificationConfig.Id config with
   | Some id => SubElement config_node "Id" (Some id) ;;; ET.ret tt
   | None => ET.ret tt
   end ;;;
   arn_tag <- getitem NOTIFICATIONS_ARN_FIELDNAME_MAP element_name ;;
   arn <- config_item "Arn" (NotificationConfig.Arn config) ;;
   SubElement config_node arn_tag (Some arn) ;;;
   events <- config_item "Events" (NotificationConfig.Events config) ;;
   for_each events (fun event =>
     SubElement config_node "Event" (Some event) ;;; ET.ret tt) ;;;
   let filter_rules := filter_rules_of config in
   if nonempty filter_rules then
     filter_node <- SubElement config_node "Filter" None ;;
     s3key_node <- SubElement filter_node "S3Key" None ;;
     for_each filter_rules (fun filter_rule =>
       filter_rule_node <- SubElement s3key_node "FilterRule" None ;;
       name <- getitem filter_rule "Name" ;;
       SubElement filter_rule_node "Name" (Some name) ;;;
       value <- getitem filter_rule "Value" ;;
       SubElement filter_rule_node "Value" (Some value) ;;;
       ET.ret tt)
   else ET.ret tt) (ET.Elem t a x tl cs)
  = match config_element element_name config with
    | Ok el => Ok (tt, ET.Elem t a x tl (cs ++ [el]))
    | Raise e => Raise e
    end.
Proof.
  unfold config_element, config_item.
  destruct config as [id arn events filt].
  cbn [NotificationConfig.Id NotificationConfig.Arn NotificationConfig.Events].
  set (rules := filter_rules_of _). cbv zeta.
  unfold ET.bind at 1. unfold root at 1. rewrite SubElement_root.
  unfold ET.bind at 1.
  assert (Hid :
    match id with
    | Some id0 => SubElement [List.length cs] "Id" (Some id0);;; ET.ret tt
    | None => ET.ret tt
    end (ET.Elem t a x tl (cs ++ [ET.Elem element_name [] None None []]))
    = Ok (tt, ET.Elem t a x tl
                (cs ++ [ET.Elem element_name [] None None
                          match id with
                          | Some id0 => [leaf "Id" id0]
                          | None => []
                          end]))).
  { destruct id as [id0|]; [|reflexivity].
    unfold ET.bind at 1. now rewrite SubElement_under_last, SubElement_root. }
  rewrite Hid. clear Hid.
  generalize (match id with Some id0 => [leaf "Id" id0] | None => [] end).
  intros ccs. unfold ET.bind at 1. unfold getitem at 1.
  destruct (dict_get element_name NOTIFICATIONS_ARN_FIELDNAME_MAP)
    as [arn_tag|]; [|reflexivity].
  unfold ET.ret at 1. unfold ET.bind at 1.
  destruct arn as [arn|]; [|reflexivity].
  unfold ET.ret at 1. unfold ET.bind at 1.
  rewrite SubElement_under_last, SubElement_root.
  unfold ET.bind at 1.
  destruct events as [events|]; [|reflexivity].
  unfold ET.ret at 1. unfold ET.bind at 1.
  rewrite events_loop.
  destruct rules as [|r rules'] eqn:Hrules.
  - cbn [nonempty result_all ET.ret]. rewrite app_nil_r.
    now rewrite <- !app_assoc.
  - cbn [nonempty]. unfold ET.bind at 1.
    rewrite SubElement_under_last, SubElement_root.
    unfold ET.bind at 1.
    rewrite !SubElement_under_last, SubElement_root. cbn [app].
    rewrite filter_rules_loop. cbn [result_all app].
    destruct (filter_rule_element r) as [el|e]; [|reflexivity].
    destruct (result_all filter_rule_element rules') as [els|e];
      [|reflexivity].
    cbn [nonempty]. now rewrite <- !app_assoc.
Qed.

Lemma add_notification_config_loop element_name configs t a x tl cs :
  _add_notification_config_to_xml root element_name configs
    (ET.Elem t a x tl cs)
  = match result_all (config_element element_name) configs with
    | Ok els => Ok (root, ET.Elem t a x tl (cs ++ els))
    | Raise e => Raise e
    end.
Proof.
  unfold _add_notification_config_to_xml. unfold ET.bind at 1.
  rewrite (for_each_appends (config_element element_name)).
  - now destruct (result_all (config_element element_name) configs).
  - intros config cs'. apply config_body.
Qed.


(** X1.  [xml_marshal_bucket_notifications] builds the tree that the pure
    description gives: under the namespaced root, the elements of the topic
    configs, then of the queue configs, then of the cloud-function configs,
    each group in list order; and it raises the [KeyError] of the first key
    that is missing, in the order topic, queue, cloud function. *)
Theorem notifications_root_refines
  (notifications : dict (list NotificationConfig.t)) :
  xml_marshal_bucket_notifications_root notifications
  = match result_all (config_element "TopicConfiguration")
            (get_default notifications "TopicConfigurations" []) with
    | Raise e => Raise e
    | Ok topics =>
        match result_all (config_element "QueueConfiguration")
                (get_default notifications "QueueConfigurations" []) with
        | Raise e => Raise e
        | Ok queues =>
            match result_all (config_element "CloudFunctionConfiguration")
                    (get_default notifications "CloudFunctionConfigurations"
                       []) with
            | Raise e => Raise e
            | Ok functions =>
                Ok (ET.Elem "NotificationConfiguration"
                      [("xmlns", _S3_NAMESPACE)] None None
                      (topics ++ queues ++ functions))
            end
        end
    end.
Proof.
  unfold xml_marshal_bucket_notifications_root, ET.built, Element, ET.new.
  unfold ET.bind at 1. rewrite add_notification_config_loop.
  destruct (result_all (config_element "TopicConfiguration") _)
    as [topics|e]; [|reflexivity].
  unfold ET.bind at 1. rewrite add_notification_config_loop.
  destruct (result_all (config_element "QueueConfiguration") _)
    as [queues|e]; [|reflexivity].
  rewrite add_notification_config_loop.
  destruct (result_all (config_element "CloudFunctionConfiguration") _)
    as [functions|e]; [|reflexivity].
  cbn [result_map snd app]. now rewrite <- app_assoc.
Qed.

Lemma config_element_ok_iff (element_name : string)
  (config : NotificationConfig.t) :
  In element_name (map fst NOTIFICATIONS_ARN_FIELDNAME_MAP) ->
  (exists el, config_element element_name config = Ok el)
  <-> config_complete config = true.
Proof.
  intros Hname. unfold config_element, config_complete.
  assert (Hmap : exists arn_tag,
             dict_get element_name NOTIFICATIONS_ARN_FIELDNAME_MAP
             = Some arn_tag).
  { simpl in Hname. destruct Hname as [<-|[<-|[<-|[]]]]; eexists; reflexivity. }
  destruct Hmap as [arn_tag ->].
  destruct (NotificationConfig.Arn config) as [arn|];
    [|split; [intros [el H]; discriminate | discriminate]].
  destruct (NotificationConfig.Events config) as [events|];
    [|split; [intros [el H]; discriminate | discriminate]].
  induction (filter_rules_of config) as [|r rules IH].
  - simpl. split; [reflexivity | intros _; eexists; reflexivity].
  - cbn [result_all forallb]. unfold filter_rule_element at 1.
    destruct (dict_get "Name" r) as [name|];
      [|split; [intros [el H]; discriminate | discriminate]].
    destruct (dict_get "Value" r) as [value|];
      [|split; [intros [el H]; discriminate | discriminate]].
    cbn [andb].
    destruct (result_all filter_rule_element rules) as [els|e].
    + split; [intros _|intros _; eexists; reflexivity].
      apply IH. eexists; reflexivity.
    + split; [intros [el H]; discriminate|].
      intros H. apply IH in H as [el H]. discriminate.
Qed.

Lemma result_all_ok_iff {A B : Type} (f : A -> result B) (c : A -> bool)
  (l : list A) :
  (forall y, (exists b, f y = Ok b) <-> c y = true) ->
  (exists bs, result_all f l = Ok bs) <-> forallb c l = true.
Proof.
  intros Hf. induction l as [|y l IH]; simpl.
  - split; [reflexivity | intros _; eexists; reflexivity].
  - destruct (f y) as [b|e] eqn:Hy.
    + assert (Hc : c y = true) by (apply Hf; exists b; exact Hy).
      rewrite Hc. simpl. rewrite <- IH.
      destruct (result_all f l) as [bs|e].
      * split; intros _; eexists; reflexivity.
      * split; intros [bs H]; discriminate.
    + split; [intros [bs H]; discriminate|].
      intros H. apply andb_true_iff in H as [H _].
      apply Hf in H as [b H]. congruence.
Qed.

(** X2.  [xml_marshal_bucket_notifications] returns bytes exactly when
    every config of the three lists has [Arn] and [Events] and every filter
    rule has [Name] and [Value]; otherwise it raises. *)
Theorem notifications_ok_iff_complete
  (notifications : dict (list NotificationConfig.t)) :
  (exists data, xml_marshal_bucket_notifications notifications = Ok data)
  <-> forallb config_complete
        (get_default notifications "TopicConfigurations" []
         ++ get_default notifications "QueueConfigurations" []
         ++ get_default notifications "CloudFunctionConfigurations" [])
      = true.
Proof.
  unfold xml_marshal_bucket_notifications,
    xml_marshal_bucket_notifications_root, ET.built, Element, ET.new.
  unfold ET.bind at 1. rewrite add_notification_config_loop.
  rewrite !forallb_app, !andb_true_iff.
  rewrite <- (result_all_ok_iff (config_element "TopicConfiguration"))
    by (intros y; apply config_element_ok_iff; simpl; tauto).
  rewrite <- (result_all_ok_iff (config_element "QueueConfiguration"))
    by (intros y; apply config_element_ok_iff; simpl; tauto).
  rewrite <- (result_all_ok_iff (config_element "CloudFunctionConfiguration"))
    by (intros y; apply config_element_ok_iff; simpl; tauto).
  destruct (result_all (config_element "TopicConfiguration") _)
    as [topics|e];
    [|split; [intros [d H]; discriminate | intros [[d H] _]; discriminate]].
  unfold ET.bind at 1. rewrite add_notification_config_loop.
  destruct (result_all (config_element "QueueConfiguration") _)
    as [queues|e];
    [|split; [intros [d H]; discriminate
             | intros [_ [[d H] _]]; discriminate]].
  rewrite add_notification_config_loop.
  destruct (result_all (config_element "CloudFunctionConfiguration") _)
    as [functions|e];
    [|split; [intros [d H]; discriminate
             | intros [_ [_ [d H]]]; discriminate]].
  split; [|intros _; eexists; reflexivity].
  intros _. repeat split; eexists; reflexivity.
Qed.

(** ** Keys of a decoded node *)

Lemma mem_app (k : string) (l1 l2 : list string) :
  mem k (l1 ++ l2) = mem k l1 || mem k l2.
Proof. unfold mem. apply existsb_app. Qed.

Lemma mem_In (k : string) (l : list string) : mem k l = true <-> In k l.
Proof.
  unfold mem. rewrite existsb_exists. split.
  - intros (y & Hy & E). apply String.eqb_eq in E. now subst.
  - intros H. exists k. split; [exact H | apply String.eqb_refl].
Qed.

Lemma dict_set_keys {V : Type} (k : string) (v : V) (m : dict V) :
  map fst (dict_set k v m) = add_key (map fst m) k.
Proof.
  unfold add_key, mem. induction m as [|[k' v'] m IH]; simpl; [reflexivity|].
  rewrite (String.eqb_sym k k').
  destruct (String.eqb k' k); simpl; [reflexivity|].
  rewrite IH. now destruct (existsb (String.eqb k) (map fst m)).
Qed.

Lemma dd_append_keys {V : Type} (k : string) (x : V) (dd : dict (list V)) :
  map fst (dd_append k x dd) = add_key (map fst dd) k.
Proof.
  unfold add_key, mem. induction dd as [|[k' l] dd IH]; simpl; [reflexivity|].
  rewrite (String.eqb_sym k k').
  destruct (String.eqb k' k); simpl; [reflexivity|].
  rewrite IH. now destruct (existsb (String.eqb k) (map fst dd)).
Qed.

Lemma dict_update_keys {V : Type} (items : list (string * V)) (m : dict V) :
  map fst (dict_update m items)
  = fold_left add_key (map fst items) (map fst m).
Proof.
  unfold dict_update. revert m.
  induction items as [|[k v] items IH]; intros m; simpl; [reflexivity|].
  now rewrite IH, dict_set_keys.
Qed.

Lemma appends_keys (w : value -> value) (kvs : list (string * value))
  (acc : dict (list value)) :
  map fst (fold_left (fun dd kv => dd_append (fst kv) (w (snd kv)) dd) kvs acc)
  = fold_left add_key (map fst kvs) (map fst acc).
Proof.
  revert acc. induction kvs as [|[k v] kvs IH]; intros acc; simpl.
  - reflexivity.
  - now rewrite IH, dd_append_keys.
Qed.

Lemma filter_filter_absorb {A : Type} (p q : A -> bool) (l : list A) :
  (forall y, p y = true -> q y = true) ->
  filter p (filter q l) = filter p l.
Proof.
  intros H. induction l as [|y l IH]; simpl; [reflexivity|].
  destruct (q y) eqn:Hq; simpl.
  - now rewrite IH.
  - destruct (p y) eqn:Hp; [|exact IH].
    rewrite (H _ Hp) in Hq. discriminate.
Qed.

Lemma filter_filter_and {A : Type} (p q : A -> bool) (l : list A) :
  filter p (filter q l) = filter (fun y => q y && p y) l.
Proof.
  induction l as [|y l IH]; simpl; [reflexivity|].
  destruct (q y); simpl; [|exact IH].
  destruct (p y); now rewrite IH.
Qed.

(** Adding keys one by one keeps the first occurrence of each. *)
Lemma fold_add_key (l acc : list string) :
  fold_left add_key l acc
  = acc ++ filter (fun k => negb (mem k acc)) (uniq l).
Proof.
  revert acc. induction l as [|k l IH]; intros acc; simpl.
  - now rewrite app_nil_r.
  - rewrite IH. unfold add_key. destruct (mem k acc) eqn:Hk; simpl.
    + f_equal. symmetry. apply filter_filter_absorb.
      intros y Hy. apply negb_true_iff. apply negb_true_iff in Hy.
      destruct (String.eqb_spec y k) as [->|]; [congruence | reflexivity].
    + rewrite <- app_assoc. simpl. do 2 f_equal.
      rewrite filter_filter_and. apply filter_ext. intros y.
      rewrite mem_app. unfold mem at 2. simpl.
      rewrite orb_false_r, negb_orb, (String.eqb_sym y k).
      apply andb_comm.
Qed.

Lemma fold_add_key_uniq (l : list string) : fold_left add_key l [] = uniq l.
Proof.
  rewrite fold_add_key. simpl.
  induction (uniq l) as [|k r IH]; simpl; [reflexivity | now rewrite IH].
Qed.

Lemma child_items_keys (cs : list ET.Element) :
  map fst (child_items cs) = map (fun c => strip_ns (ET.tag c)) cs.
Proof. unfold child_items. rewrite map_map. reflexivity. Qed.

Lemma attrib_items_fst (a : dict string) :
  map fst (attrib_items a) = map (fun kv => ("@" ++ fst kv)%string) a.
Proof. unfold attrib_items. rewrite map_map. reflexivity. Qed.

(** The keys of a decoded node are written one after the other. *)
Lemma node_keys_fold t a x tl cs :
  top_keys (value_of (ET.Elem t a x tl cs))
  = fold_left add_key (written_keys a x cs) [].
Proof.
  rewrite value_of_node. unfold written_keys.
  rewrite !fold_left_app.
  assert (H1 : top_keys (after_children a cs (map decode cs))
               = fold_left add_key
                   (map (fun c => strip_ns (ET.tag c)) cs) []).
  { unfold after_children. destruct cs as [|c0 cs'].
    - simpl. now destruct (nonempty a).
    - cbn [nonempty top_keys]. rewrite map_map. cbn [fst].
      change (map (fun kv : string * list value => fst kv)
                (collect (wrap_of (first_is_rule (c0 :: cs')))
                   (map decode (c0 :: cs'))))
        with (map fst (collect (wrap_of (first_is_rule (c0 :: cs')))
                         (map decode (c0 :: cs')))).
      now rewrite collect_child_items, appends_keys, child_items_keys. }
  assert (H2 : top_keys (after_attrib a
                           (after_children a cs (map decode cs)))
               = fold_left add_key
                   (map (fun kv => ("@" ++ fst kv)%string) a)
                   (fold_left add_key
                      (map (fun c => strip_ns (ET.tag c)) cs) [])).
  { rewrite <- H1. unfold after_attrib. destruct a as [|kv a'].
    - reflexivity.
    - cbn [nonempty].
      pose proof (compound_is_dict (kv :: a') cs) as Hd.
      rewrite orb_true_r in Hd. specialize (Hd eq_refl).
      unfold after_attrib in Hd. cbn [nonempty] in Hd.
      destruct (after_children (kv :: a') cs (map decode cs));
        try discriminate Hd.
      cbn [value_update top_keys].
      now rewrite dict_update_keys, attrib_items_fst. }
  rewrite <- H2. unfold after_text.
  destruct x as [s|]; [|reflexivity].
  destruct (str_true s) eqn:Hs.
  - destruct (nonempty cs || nonempty a) eqn:Hc.
    + rewrite andb_true_r. destruct (str_true (strip s)); [|reflexivity].
      pose proof (compound_is_dict a cs Hc) as Hd.
      destruct (after_attrib a (after_children a cs (map decode cs)));
        try discriminate Hd.
      cbn [value_setitem top_keys fold_left]. apply dict_set_keys.
    + rewrite andb_false_r. cbn [fold_left].
      apply orb_false_iff in Hc as [Hcs Ha].
      destruct cs; [|discriminate]. destruct a; [|discriminate].
      reflexivity.
  - destruct s; [|discriminate Hs]. reflexivity.
Qed.

Lemma decoded_key_order_fold t a x tl cs :
  top_keys (value_of (ET.Elem t a x tl cs)) = uniq (written_keys a x cs).
Proof. now rewrite node_keys_fold, fold_add_key_uniq. Qed.

(** X3.  The keys of a decoded node are the first occurrences, in order, of
    the stripped tags of its children, followed by [@name] for each
    attribute and by [#text] when the trimmed text is kept: each key once,
    at the place of its first writing. *)
Theorem decoded_key_order t a x tl cs :
  top_keys (value_of (ET.Elem t a x tl cs)) = uniq (written_keys a x cs).
Proof. now rewrite node_keys_fold, fold_add_key_uniq. Qed.

Lemma NoDup_uniq (l : list string) : NoDup (uniq l).
Proof.
  induction l as [|k l IH]; simpl; constructor.
  - intros H. apply filter_In in H as [_ H].
    now rewrite String.eqb_refl in H.
  - now apply NoDup_filter.
Qed.

(** ** Values of a decoded node *)

Section ValuesInvariant.

Variable Q : value -> Prop.
Hypothesis Q_list : forall l, Forall Q l -> Q (VList l).
Hypothesis Q_str : forall s, Q (VStr s).

Lemma dict_set_values (k : string) (v : value) (m : dict value) :
  Q v -> Forall (fun kv => Q (snd kv)) m ->
  Forall (fun kv => Q (snd kv)) (dict_set k v m).
Proof.
  intros Hv. induction 1 as [|[k' v'] m Hx Hm IH]; simpl.
  - now constructor.
  - destruct (String.eqb k' k); constructor; auto.
Qed.

Lemma dict_update_values (items : list (string * value)) (m : dict value) :
  Forall (fun kv => Q (snd kv)) items ->
  Forall (fun kv => Q (snd kv)) m ->
  Forall (fun kv => Q (snd kv)) (dict_update m items).
Proof.
  unfold dict_update. intros Hi. revert m.
  induction Hi as [|[k v] items Hx Hi IH]; intros m Hm; simpl; [exact Hm|].
  apply IH. now apply dict_set_values.
Qed.

Lemma dd_append_values (k : string) (x : value) (dd : dict (list value)) :
  Q x -> Forall (fun kl => Forall Q (snd kl)) dd ->
  Forall (fun kl => Forall Q (snd kl)) (dd_append k x dd).
Proof.
  intros Hx. induction 1 as [|[k' l] dd Hl Hdd IH]; simpl.
  - constructor; [|constructor]. simpl. now constructor.
  - destruct (String.eqb k' k); constructor; auto.
    simpl. apply Forall_app. split; [exact Hl | now constructor].
Qed.

Lemma appends_values (w : value -> value) (kvs : list (string * value))
  (acc : dict (list value)) :
  (forall v, Q v -> Q (w v)) ->
  Forall (fun kv => Q (snd kv)) kvs ->
  Forall (fun kl => Forall Q (snd kl)) acc ->
  Forall (fun kl => Forall Q (snd kl))
    (fold_left (fun dd kv => dd_append (fst kv) (w (snd kv)) dd) kvs acc).
Proof.
  intros Hw Hk. revert acc.
  induction Hk as [|[k v] kvs Hv _ IH]; intros acc Hacc; simpl; [exact Hacc|].
  apply IH. apply dd_append_values; auto.
Qed.

Lemma unwrap1_value (l : list value) : Forall Q l -> Q (unwrap1 l).
Proof.
  intros H. destruct l as [|v [|v' l]]; simpl; auto.
  now inversion H.
Qed.

Lemma wrap_of_value (b : bool) (v : value) : Q v -> Q (wrap_of b v).
Proof.
  intros H. destruct b; simpl; [|exact H]. apply Q_list. now constructor.
Qed.

(** The values bound in a decoded node satisfy [Q] when those of its
    children do. *)
Lemma node_values t a x tl cs :
  Forall (fun c => Q (value_of c)) cs ->
  Forall (fun kv => Q (snd kv))
    match value_of (ET.Elem t a x tl cs) with
    | VDict m => m
    | _ => []
    end.
Proof.
  intros Hcs. rewrite value_of_node.
  assert (H1 : Forall (fun kv => Q (snd kv))
                 match after_children a cs (map decode cs) with
                 | VDict m => m
                 | _ => []
                 end).
  { unfold after_children. destruct (nonempty cs);
      [|destruct (nonempty a); constructor].
    apply Forall_map. rewrite collect_child_items.
    eapply Forall_impl;
      [|apply (appends_values _ _ _ (wrap_of_value _))].
    - intros [k l] Hl. simpl. now apply unwrap1_value.
    - unfold child_items. apply Forall_map. exact Hcs.
    - constructor. }
  assert (H2 : Forall (fun kv => Q (snd kv))
                 match after_attrib a (after_children a cs (map decode cs))
                 with
                 | VDict m => m
                 | _ => []
                 end).
  { revert H1. unfold after_attrib.
    destruct (nonempty a); [|exact (fun H => H)].
    destruct (after_children a cs (map decode cs)); simpl; auto.
    intros H1. apply dict_update_values; [|exact H1].
    unfold attrib_items. apply Forall_map, Forall_forall.
    intros kv _. apply Q_str. }
  revert H2. unfold after_text.
  destruct x as [s|]; [|exact (fun H => H)].
  destruct (str_true s); [|exact (fun H => H)].
  destruct (nonempty cs || nonempty a); [|constructor].
  destruct (str_true (strip s)); [|exact (fun H => H)].
  destruct (after_attrib a (after_children a cs (map decode cs)));
    simpl; auto.
  intros H2. now apply dict_set_values.
Qed.

End ValuesInvariant.

(** X4.  The mapping [etree_to_dict] returns is a well-formed dict
    throughout: at every depth the keys of a mapping are pairwise
    distinct. *)
Theorem decode_distinct_keys (elem : ET.Element) :
  distinct_keys (VDict (decode elem)).
Proof.
  assert (H : forall e, distinct_keys (value_of e)).
  { intros e. induction e as [t a x tl cs IH] using Element_forest_ind.
    pose proof (node_values distinct_keys distinct_list distinct_str
                  t a x tl cs IH) as Hv.
    pose proof (decoded_key_order_fold t a x tl cs) as Hk.
    pose proof (value_of_not_list (ET.Elem t a x tl cs)) as Hl.
    destruct (value_of (ET.Elem t a x tl cs)); try discriminate Hl;
      constructor.
    - simpl in Hk. rewrite Hk. apply NoDup_uniq.
    - exact Hv. }
  rewrite decode_single. constructor.
  - simpl. constructor; [intros [] | constructor].
  - constructor; [apply H | constructor].
Qed.

(** ** Tags, tails and the decoded mapping *)


Lemma first_is_rule_map (g : ET.Element -> ET.Element) (cs : list ET.Element) :
  (forall c, In c cs -> strip_ns (ET.tag (g c)) = strip_ns (ET.tag c)) ->
  first_is_rule (map g cs) = first_is_rule cs.
Proof.
  destruct cs as [|c0 cs]; [reflexivity|]. intros H. simpl.
  now rewrite (H c0 (or_introl eq_refl)).
Qed.

(** The mapping depends on the tags through their stripped form only. *)
Lemma decode_map_tags (f : string -> string) (elem : ET.Element) :
  Forall (fun t => strip_ns (f t) = strip_ns t) (tags elem) ->
  decode (map_tags f elem) = decode elem.
Proof.
  induction elem as [t a x tl cs IH] using Element_forest_ind.
  cbn [tags map_tags]. intros H. inversion H as [|? ? Ht Hcs]; subst.
  apply Forall_flat_map in Hcs.
  assert (Hmap : map decode (map (map_tags f) cs) = map decode cs).
  { rewrite map_map. apply map_ext_in. intros c Hc.
    rewrite Forall_forall in IH, Hcs. exact (IH c Hc (Hcs c Hc)). }
  assert (Hrule : first_is_rule (map (map_tags f) cs) = first_is_rule cs).
  { apply first_is_rule_map. intros c Hc.
    rewrite Forall_forall in Hcs. specialize (Hcs c Hc).
    destruct c. cbn [tags map_tags ET.tag] in *. now inversion Hcs. }
  rewrite !decode_single. cbn [ET.tag]. rewrite Ht. do 2 f_equal.
  rewrite !value_of_node. unfold after_children.
  rewrite Hmap, Hrule.
  now destruct cs.
Qed.




Lemma local_tags_qualify (elem : ET.Element) :
  local_tags elem = true ->
  Forall (fun t => strip_ns (ns ++ t) = strip_ns t) (tags elem).
Proof.
  induction elem as [t a x tl cs IH] using Element_forest_ind.
  cbn [local_tags tags]. intros H. apply andb_true_iff in H as [Ht Hcs].
  constructor.
  - now rewrite strip_ns_qualified, strip_ns_local.
  - apply Forall_flat_map. rewrite Forall_forall in *.
    rewrite forallb_forall in Hcs.
    intros c Hc. exact (IH c Hc (Hcs c Hc)).
Qed.

(** X6.  Whether a document declares the protocol namespace makes no
    difference to the mapping: a tree of local names and the same tree with
    every tag qualified by [ns] decode alike. *)
Theorem decode_namespace_insensitive (elem : ET.Element) :
  local_tags elem = true ->
  decode (map_tags (String.append ns) elem) = decode elem.
Proof. intros H. now apply decode_map_tags, local_tags_qualify. Qed.

Lemma decode_namespace_insensitive_witness :
  let doc :=
    ET.Elem "Delete" [] None None
      [ET.Elem "Quiet" [] (Some "true") None [];
       ET.Elem "Object" [] None None
         [ET.Elem "Key" [] (Some "a.txt") None []]] in
  decode (map_tags (String.append ns) doc) = decode doc.
Proof. cbv zeta. apply decode_namespace_insensitive. reflexivity. Defined.

(** X7.  [etree_to_dict] never reads a tail: trees that differ only in the
    tails of their nodes decode alike, so text that follows a closing tag
    is dropped. *)
Theorem decode_ignores_tail (f : option string -> option string)
  (elem : ET.Element) :
  decode (map_tails f elem) = decode elem.
Proof.
  induction elem as [t a x tl cs IH] using Element_forest_ind.
  cbn [map_tails].
  assert (Hmap : map decode (map (map_tails f) cs) = map decode cs).
  { rewrite map_map. apply map_ext_in. intros c Hc.
    rewrite Forall_forall in IH. exact (IH c Hc). }
  assert (Hrule : first_is_rule (map (map_tails f) cs) = first_is_rule cs).
  { apply first_is_rule_map. intros c _. now destruct c. }
  rewrite !decode_single. cbn [ET.tag]. do 2 f_equal.
  rewrite !value_of_node. unfold after_children.
  rewrite Hmap, Hrule.
  now destruct cs.
Qed.

(** X8.  A node decodes to a mapping exactly when it has children or
    attributes; otherwise to [None] or a string, and never to a list. *)
Theorem decoded_value_shape t a x tl cs :
  is_dict (value_of (ET.Elem t a x tl cs)) = nonempty cs || nonempty a
  /\ is_list (value_of (ET.Elem t a x tl cs)) = false.
Proof.
  split; [|apply value_of_not_list].
  rewrite value_of_node.
  unfold after_text, after_attrib, after_children, value_update, value_setitem.
  destruct x as [s|]; [destruct (str_true s)|];
    destruct (nonempty cs), (nonempty a); simpl;
    try destruct (str_true (strip s)); reflexivity.
Qed.

(** ** Trimmed text and attributes *)

Lemma rstrip_idempotent (s : string) : rstrip (rstrip s) = rstrip s.
Proof.
  induction s as [|c s IH]; [reflexivity|]. cbn [rstrip].
  destruct (rstrip s) as [|c' r] eqn:Hr.
  - destruct (isspace c) eqn:Hc; [reflexivity|].
    cbn [rstrip]. now rewrite Hc.
  - cbn [rstrip]. cbn [rstrip] in IH. now rewrite IH.
Qed.

Lemma lstrip_clean (s : string) :
  match s with
  | EmptyString => True
  | String c _ => isspace c = false
  end ->
  lstrip s = s.
Proof. destruct s as [|c s]; [reflexivity|]. simpl. now intros ->. Qed.

Lemma lstrip_starts_clean (s : string) :
  match lstrip s with
  | EmptyString => True
  | String c _ => isspace c = false
  end.
Proof.
  induction s as [|c s IH]; simpl; [exact I|].
  destruct (isspace c) eqn:Hc; [exact IH | exact Hc].
Qed.

Lemma rstrip_starts_clean (s : string) :
  match s with
  | EmptyString => True
  | String c _ => isspace c = false
  end ->
  match rstrip s with
  | EmptyString => True
  | String c _ => isspace c = false
  end.
Proof.
  destruct s as [|c s]; [exact (fun H => H)|]. intros Hc. cbn [rstrip].
  destruct (rstrip s); [now rewrite Hc | exact Hc].
Qed.

Lemma strip_idempotent (s : string) : strip (strip s) = strip s.
Proof.
  unfold strip.
  rewrite (lstrip_clean (rstrip (lstrip s))).
  - apply rstrip_idempotent.
  - apply rstrip_starts_clean, lstrip_starts_clean.
Qed.

(** X9.  Every string [etree_to_dict] takes from the text of an element is
    trimmed: the value of a leaf, and the [#text] entry of an element no
    child of which is tagged [#text], are left unchanged by [strip]. *)
Theorem decoded_text_trimmed t a x tl cs (s : string) :
  value_of (ET.Elem t a x tl cs) = VStr s
  \/ (children_tagged "#text" cs = []
      /\ value_get "#text" (value_of (ET.Elem t a x tl cs)) = Some (VStr s)) ->
  strip s = s.
Proof.
  intros [H|[Hcs H]].
  - rewrite value_of_node in H. unfold after_text in H.
    destruct x as [s0|].
    + destruct (str_true s0).
      * destruct (nonempty cs || nonempty a) eqn:Hc.
        -- pose proof (compound_is_dict a cs Hc) as Hd.
           destruct (str_true (strip s0));
             destruct (after_attrib a (after_children a cs (map decode cs)));
             simpl in H; discriminate.
        -- injection H as <-. apply strip_idempotent.
      * pose proof (value_of_compound t a None tl cs) as Hd.
        rewrite value_of_node in Hd. unfold after_text in Hd.
        destruct (nonempty cs || nonempty a) eqn:Hc.
        -- rewrite H in Hd. discriminate (Hd eq_refl).
        -- apply orb_false_iff in Hc as [Hcs Ha].
           destruct cs; [|discriminate]. destruct a; discriminate.
    + destruct (nonempty cs || nonempty a) eqn:Hc.
      * pose proof (compound_is_dict a cs Hc) as Hd.
        rewrite H in Hd. discriminate.
      * apply orb_false_iff in Hc as [Hcs Ha].
        destruct cs; [|discriminate]. destruct a; discriminate.
  - rewrite (text_key_lookup _ _ _ _ _ Hcs) in H.
    destruct x as [s0|]; [|discriminate].
    destruct (str_true (strip s0) && (nonempty cs || nonempty a));
      [|discriminate].
    injection H as <-. apply strip_idempotent.
Qed.

Lemma decoded_text_trimmed_witness :
  value_of (ET.Elem "Key" [] (Some "  a.txt  ") None []) = VStr "a.txt"
  /\ strip "a.txt" = "a.txt".
Proof.
  split; [reflexivity|].
  apply (decoded_text_trimmed "Key" [] (Some "  a.txt  ") None []).
  left. reflexivity.
Defined.

Lemma dict_get_In {V : Type} (k : string) (v : V) (m : dict V) :
  dict_get k m = Some v -> In (k, v) m.
Proof.
  induction m as [|[k' v'] m IH]; simpl; [discriminate|].
  destruct (String.eqb_spec k' k) as [->|].
  - intros [= ->]. now left.
  - intros H. right. now apply IH.
Qed.

Lemma dict_update_last {V : Type} (k : string) (v : V)
  (items : list (string * V)) (m : dict V) :
  NoDup (map fst items) -> In (k, v) items ->
  dict_get k (dict_update m items) = Some v.
Proof.
  unfold dict_update. revert m.
  induction items as [|[k1 v1] items IH]; intros m Hnd Hin; [destruct Hin|].
  inversion Hnd as [|? ? Hk1 Hnd']; subst. simpl.
  destruct Hin as [[= -> ->]|Hin].
  - change (fold_left _ items (dict_set k v m))
      with (dict_update (dict_set k v m) items).
    rewrite dict_get_update.
    + rewrite dict_get_set. now rewrite String.eqb_refl.
    + apply Forall_forall. intros [k2 v2] H2 E. simpl in E. subst.
      apply Hk1. apply in_map_iff. now exists (k, v2).
  - now apply IH.
Qed.

Lemma NoDup_map_injective {A B : Type} (g : A -> B) (l : list A) :
  (forall y z, g y = g z -> y = z) -> NoDup l -> NoDup (map g l).
Proof.
  intros Hg. induction 1 as [|y l Hy Hl IH]; simpl; constructor; [|exact IH].
  intros H. apply in_map_iff in H as (z & E & Hz).
  apply Hg in E. now subst.
Qed.

Lemma append_at_injective (k1 k2 : string) :
  ("@" ++ k1)%string = ("@" ++ k2)%string -> k1 = k2.
Proof. now intros [= ->]. Qed.

(** X10.  Every attribute of an element is in its mapping: where the
    attribute names are pairwise distinct (as in any [dict]), the attribute
    [k] with value [s] is bound under the key [@k] to [s], whatever the
    children and the text. *)
Theorem decoded_attribute t a x tl cs (k s : string) :
  NoDup (map fst a) ->
  dict_get k a = Some s ->
  value_get ("@" ++ k) (value_of (ET.Elem t a x tl cs)) = Some (VStr s).
Proof.
  intros Hnd Hk. apply dict_get_In in Hk.
  assert (Ha : nonempty a = true) by (destruct a; [destruct Hk | reflexivity]).
  assert (H2 : value_get ("@" ++ k)
                 (after_attrib a (after_children a cs (map decode cs)))
               = Some (VStr s)).
  { pose proof (compound_is_dict a cs) as Hd.
    rewrite Ha, orb_true_r in Hd. specialize (Hd eq_refl).
    unfold after_attrib in *. rewrite Ha in *.
    destruct (after_children a cs (map decode cs)); try discriminate Hd.
    cbn [value_update value_get]. apply dict_update_last.
    - rewrite attrib_items_fst.
      rewrite <- (map_map fst (fun n => ("@" ++ n)%string)).
      apply NoDup_map_injective; [|exact Hnd].
      intros k1 k2. apply append_at_injective.
    - unfold attrib_items. apply in_map_iff. now exists (k, s). }
  rewrite value_of_node. unfold after_text.
  destruct x as [s0|]; [|exact H2].
  destruct (str_true s0); [|exact H2].
  rewrite Ha, orb_true_r.
  destruct (str_true (strip s0)); [|exact H2].
  rewrite value_get_setitem; [exact H2 | discriminate].
Qed.

Lemma decoded_attribute_witness :
  value_get "@type"
    (value_of (ET.Elem "Grantee" [("type", "Group"); ("id", "7")]
                 (Some " x ") None [ET.Elem "URI" [] (Some "u") None []]))
  = Some (VStr "Group").
Proof.
  apply (decoded_attribute "Grantee" [("type", "Group"); ("id", "7")]
           (Some " x ") None [ET.Elem "URI" [] (Some "u") None []]
           "type" "Group").
  - repeat constructor; simpl; intuition discriminate.
  - reflexivity.
Defined.

(** ** [SubElement] at any node *)

Lemma map_nth_map_nth {A : Type} (i : nat) (f g : A -> A) (l : list A) :
  ET.map_nth i f (ET.map_nth i g l) = ET.map_nth i (fun y => f (g y)) l.
Proof.
  revert i. induction l as [|y l IH]; intros [|i]; simpl; try reflexivity.
  now rewrite IH.
Qed.

Lemma map_nth_at {A : Type} (i : nat) (f : A -> A) (l : list A) (c : A) :
  nth_error l i = Some c ->
  ET.map_nth i f l = ET.map_nth i (fun _ => f c) l.
Proof.
  revert i. induction l as [|y l IH]; intros [|i]; simpl; try discriminate.
  - now intros [= ->].
  - intros H. now rewrite (IH _ H).
Qed.

Lemma nth_error_map_nth {A : Type} (i : nat) (f : A -> A) (l : list A)
  (c : A) :
  nth_error l i = Some c -> nth_error (ET.map_nth i f l) i = Some (f c).
Proof.
  revert i. induction l as [|y l IH]; intros [|i]; simpl; try discriminate.
  - now intros [= ->].
  - apply IH.
Qed.

(** [SubElement] below the child [i] of the root works on that child. *)
Lemma SubElement_under i p tg txt t a x tl cs c :
  nth_error cs i = Some c ->
  SubElement (i :: p) tg txt (ET.Elem t a x tl cs)
  = match SubElement p tg txt c with
    | Ok (r, c') =>
        Ok (i :: r, ET.Elem t a x tl (ET.map_nth i (fun _ => c') cs))
    | Raise e => Raise e
    end.
Proof.
  intros H. unfold SubElement, ET.bind, ET.SubElement, ET.set_text, ET.ret.
  cbn [ET.node_at ET.children]. rewrite H. cbn [ET.update_at].
  destruct txt as [s|].
  - rewrite <- app_comm_cons. cbn [ET.update_at].
    rewrite map_nth_map_nth. now rewrite (map_nth_at i _ cs c H).
  - now rewrite (map_nth_at i _ cs c H).
Qed.

(** X11.  [SubElement(parent, tag, text)] on a node of the tree never
    fails; it returns the reference of a new last child of [parent]; that
    child has the tag, the text when one is given, and nothing else; and
    [parent] is as before but for this child. *)
Theorem SubElement_appends_last_child (p : ET.ref) (tg : string)
  (txt : option string) (tree parent : ET.Element) :
  ET.node_at p tree = Some parent ->
  exists tree',
    SubElement p tg txt tree
    = Ok (p ++ [List.length (ET.children parent)], tree')
    /\ ET.node_at p tree'
       = Some (ET.append (ET.Elem tg [] txt None []) parent)
    /\ ET.node_at (p ++ [List.length (ET.children parent)]) tree'
       = Some (ET.Elem tg [] txt None []).
Proof.
  revert tree. induction p as [|i p IH]; intros tree H.
  - injection H as ->. destruct parent as [t a x tl cs].
    eexists. split; [apply SubElement_root|]. split; [reflexivity|].
    cbn [app ET.node_at ET.children]. now rewrite nth_error_last.
  - destruct tree as [t a x tl cs]. cbn [ET.node_at ET.children] in H.
    destruct (nth_error cs i) as [c|] eqn:Hc; [|discriminate].
    destruct (IH c H) as (c' & Hsub & Hp & Hnew).
    rewrite (SubElement_under _ _ _ _ _ _ _ _ _ _ Hc), Hsub.
    eexists. split; [reflexivity|].
    rewrite <- app_comm_cons. cbn [ET.node_at ET.children].
    rewrite (nth_error_map_nth _ _ _ _ Hc). now split.
Qed.

Lemma SubElement_appends_last_child_witness :
  let tree :=
    ET.Elem "Delete" [] None None
      [ET.Elem "Quiet" [] (Some "true") None [];
       ET.Elem "Object" [] None None []] in
  exists tree',
    SubElement [1] "Key" (Some "a.txt") tree = Ok ([1; 0], tree')
    /\ ET.node_at [1] tree'
       = Some (ET.Elem "Object" [] None None
                 [ET.Elem "Key" [] (Some "a.txt") None []])
    /\ ET.node_at [1; 0] tree' = Some (ET.Elem "Key" [] (Some "a.txt") None []).
Proof.
  cbv zeta.
  exact (SubElement_appends_last_child [1] "Key" (Some "a.txt")
           (ET.Elem "Delete" [] None None
              [ET.Elem "Quiet" [] (Some "true") None [];
               ET.Elem "Object" [] None None []])
           (ET.Elem "Object" [] None None []) eq_refl).
Defined.

(** ** More on the marshallers *)

(** X12.  [xml_marshal_bucket_encryption] returns bytes exactly when the
    rule list is empty or its first rule has the
    [ApplyServerSideEncryptionByDefault] mapping; when the first rule lacks
    it, the marshaller raises [KeyError] for that key, whatever the other
    rules; and on the empty list the root has no child. *)
Theorem bucket_encryption_ok_iff (rules : list rule) :
  ((exists data, xml_marshal_bucket_encryption rules = Ok data)
   <-> match rules with
       | [] => True
       | rules_0 :: _ =>
           dict_get "ApplyServerSideEncryptionByDefault" rules_0 <> None
       end)
  /\ match rules with
     | [] =>
         xml_marshal_bucket_encryption_root rules
         = Ok (ET.Elem "ServerSideEncryptionConfiguration" [] None None [])
     | rules_0 :: _ =>
         dict_get "ApplyServerSideEncryptionByDefault" rules_0 = None ->
         xml_marshal_bucket_encryption rules
         = Raise (KeyError "ApplyServerSideEncryptionByDefault")
     end.
Proof.
  destruct rules as [|rules_0 others].
  - split; [|reflexivity]. split; [exact (fun _ => I)|].
    intros _. eexists. reflexivity.
  - unfold xml_marshal_bucket_encryption,
      xml_marshal_bucket_encryption_root, getitem, get_default.
    destruct (dict_get "ApplyServerSideEncryptionByDefault" rules_0)
      as [sse|].
    + split; [|discriminate]. split; [discriminate|]. intros _.
      unfold ET.built, ET.bind, ET.ret. cbn.
      destruct (dict_get "SSEAlgorithm" sse) as [[algorithm|]|];
        destruct (dict_get "KMSMasterKeyID" sse) as [[[|c s]|]|];
        eexists; reflexivity.
    + split; [|reflexivity].
      split; [intros [data H]; discriminate | congruence].
Qed.

(** X13.  For options whose fields are strings, the root that
    [xml_marshal_select] builds has exactly five children, in this order:
    [Expression] with the expression, [ExpressionType] with the text [SQL],
    the input and the output serialisation, and [RequestProgress] holding
    only [Enabled] with the flag in lower case. *)
Theorem select_fixed_children (opts : SelectObjectOptions) :
  exists input output,
    xml_marshal_select_root opts
    = Ok (ET.Elem "SelectObjectContentRequest" [] None None
            [leaf "Expression" (expression opts);
             leaf "ExpressionType" "SQL";
             input; output;
             ET.Elem "RequestProgress" [] None None
               [leaf "Enabled" (lower (enabled (req_progress opts)))]])
    /\ ET.tag input = "InputSerialization"
    /\ ET.tag output = "OutputSerialization".
Proof.
  destruct opts as [e [ct csv json pq] [co jo] [en]].
  destruct csv, json, pq, co, jo;
    do 2 eexists;
    (split; [cbv - [lower]; reflexivity | split; reflexivity]).
Qed.

(** X14.  The variant blocks of [xml_marshal_select]: each populated
    variant gives its block and none is checked against the others.  The
    [CSV] input block has its seven fields in the order of the code, the
    last in lower case; [JSON] has [Type]; [Parquet] is empty; the [CSV]
    output block has its five fields and the [JSON] one its delimiter. *)
Theorem select_variant_blocks (opts : SelectObjectOptions) :
  exists e1 e2 e5,
    xml_marshal_select_root opts
    = Ok (ET.Elem "SelectObjectContentRequest" [] None None
            [e1; e2;
             ET.Elem "InputSerialization" [] None None
               (leaf "CompressionType" (compression_type (in_ser opts))
                :: match csv_input (in_ser opts) with
                   | Some c =>
                       [ET.Elem "CSV" [] None None
                          [leaf "FileHeaderInfo" (CSVInput.FileHeaderInfo c);
                           leaf "RecordDelimiter" (CSVInput.RecordDelimiter c);
                           leaf "FieldDelimiter" (CSVInput.FieldDelimiter c);
                           leaf "QuoteCharacter" (CSVInput.QuoteCharacter c);
                           leaf "QuoteEscapeCharacter"
                             (CSVInput.QuoteEscapeCharacter c);
                           leaf "Comments" (CSVInput.Comments c);
                           leaf "AllowQuotedRecordDelimiter"
                             (lower (CSVInput.AllowQuotedRecordDelimiter c))]]
                   | None => []
                   end
                   ++ match json_input (in_ser opts) with
                      | Some j =>
                          [ET.Elem "JSON" [] None None
                             [leaf "Type" (JSONInput.Type_ j)]]
                      | None => []
                      end
                   ++ match parquet_input (in_ser opts) with
                      | Some _ => [ET.Elem "Parquet" [] None None []]
                      | None => []
                      end);
             ET.Elem "OutputSerialization" [] None None
               (match csv_output (out_ser opts) with
                | Some c =>
                    [ET.Elem "CSV" [] None None
                       [leaf "QuoteFields" (CSVOutput.QuoteFields c);
                        leaf "RecordDelimiter" (CSVOutput.RecordDelimiter c);
                        leaf "FieldDelimiter" (CSVOutput.FieldDelimiter c);
                        leaf "QuoteCharacter" (CSVOutput.QuoteCharacter c);
                        leaf "QuoteEscapeCharacter"
                          (CSVOutput.QuoteEscapeCharacter c)]]
                | None => []
                end
                ++ match json_output (out_ser opts) with
                   | Some j =>
                       [ET.Elem "JSON" [] None None
                          [leaf "RecordDelimiter"
                             (JSONOutput.RecordDelimiter j)]]
                   | None => []
                   end);
             e5]).
Proof.
  destruct opts as [e [ct csv json pq] [co jo] [en]].
  destruct csv as [[]|], json as [[]|], pq, co as [[]|], jo as [[]|];
    do 3 eexists; cbv - [lower]; reflexivity.
Qed.

(** ** The bytes of [get_xml_data] *)

Lemma append_assoc (s1 s2 s3 : string) :
  ((s1 ++ s2) ++ s3 = s1 ++ (s2 ++ s3))%string.
Proof. induction s1 as [|c s1 IH]; simpl; [reflexivity | now rewrite IH]. Qed.

Lemma append_empty_r (s : string) : (s ++ "")%string = s.
Proof. induction s as [|c s IH]; simpl; [reflexivity | now rewrite IH]. Qed.

Lemma is_ascii_app (s1 s2 : string) :
  is_ascii (s1 ++ s2) = is_ascii s1 && is_ascii s2.
Proof.
  induction s1 as [|c s1 IH]; simpl; [reflexivity|].
  now rewrite IH, andb_assoc.
Qed.

Lemma is_ascii_uint (d : Decimal.uint) :
  is_ascii (NilEmpty.string_of_uint d) = true.
Proof. induction d; simpl; auto. Qed.

Lemma is_ascii_encode (s : string) : is_ascii (ET.encode s) = true.
Proof.
  induction s as [|c s IH]; [reflexivity|]. cbn [ET.encode].
  destruct (nat_of_ascii c <? 128)%nat eqn:Hc.
  - cbn [is_ascii]. now rewrite Hc.
  - rewrite !is_ascii_app, is_ascii_uint, IH. reflexivity.
Qed.

Lemma is_ascii_join (l : list string) :
  Forall (fun s => is_ascii s = true) l -> is_ascii (ET.join l) = true.
Proof.
  induction 1 as [|s l Hs _ IH]; [reflexivity|].
  cbn [ET.join fold_right]. rewrite is_ascii_app, Hs. exact IH.
Qed.

Lemma is_ascii_opt_text (x : option string) : is_ascii (ET.opt_text x) = true.
Proof. destruct x; [apply is_ascii_encode | reflexivity]. Qed.

(** The serialiser writes characters below 128 only: any other is written
    as a character reference. *)
Lemma get_xml_data_ascii (element : ET.Element) :
  is_ascii (get_xml_data element) = true.
Proof.
  unfold get_xml_data, ET.write.
  induction element as [t a x tl cs IH] using Element_forest_ind.
  cbn [ET._serialize_xml].
  assert (Hcs : is_ascii (ET.join (map ET._serialize_xml cs)) = true).
  { apply is_ascii_join, Forall_map. exact IH. }
  assert (Ha : is_ascii
                 (ET.join
                    (map (fun kv =>
                            (" " ++ ET.encode (fst kv) ++ "=" ++ ET.dquote
                                 ++ ET.encode (ET._escape_attrib (snd kv))
                                 ++ ET.dquote)%string) a)) = true).
  { apply is_ascii_join, Forall_map, Forall_forall. intros kv _.
    now rewrite !is_ascii_app, !is_ascii_encode. }
  assert (Hbody : is_ascii
                    (if ET.opt_true x || nonempty cs
                     then (">" ++ ET.opt_text x
                               ++ ET.join (map ET._serialize_xml cs)
                               ++ "</" ++ ET.encode t ++ ">")%string
                     else " />") = true).
  { destruct (ET.opt_true x || nonempty cs); [|reflexivity].
    now rewrite !is_ascii_app, is_ascii_opt_text, Hcs, is_ascii_encode. }
  assert (Htail : is_ascii
                    (if ET.opt_true tl then ET.opt_text tl else "") = true).
  { destruct (ET.opt_true tl); [apply is_ascii_opt_text | reflexivity]. }
  now rewrite !is_ascii_app, Ha, is_ascii_encode, Hbody, Htail.
Qed.

Lemma plain_text_no_char (c : ascii) (s : string) :
  In c ["&"; "<"; ">"]%char -> plain_text s = true -> has_char c s = false.
Proof.
  intros Hc. induction s as [|b s IH]; [reflexivity|].
  cbn [plain_text has_char]. intros H.
  apply andb_true_iff in H as [H Hs].
  apply andb_true_iff in H as [H Hgt].
  apply andb_true_iff in H as [H Hlt].
  apply andb_true_iff in H as [_ Hamp].
  rewrite (IH Hs), orb_false_r.
  apply negb_true_iff in Hgt, Hlt, Hamp.
  destruct Hc as [<-|[<-|[<-|[]]]]; assumption.
Qed.

Lemma escape_cdata_plain (s : string) :
  plain_text s = true -> ET._escape_cdata s = s.
Proof.
  intros H. unfold ET._escape_cdata.
  rewrite (replace_absent "&" "" "&amp;" s)
    by (apply plain_text_no_char; simpl; tauto).
  rewrite (replace_absent "<" "" "&lt;" s)
    by (apply plain_text_no_char; simpl; tauto).
  apply replace_absent, plain_text_no_char; simpl; tauto.
Qed.

Lemma encode_plain (s : string) : plain_text s = true -> ET.encode s = s.
Proof.
  induction s as [|c s IH]; [reflexivity|]. cbn [plain_text ET.encode].
  intros H. apply andb_true_iff in H as [H Hs].
  apply andb_true_iff in H as [H _].
  apply andb_true_iff in H as [H _].
  apply andb_true_iff in H as [H _].
  now rewrite H, (IH Hs).
Qed.

(** An element holding plain text is written with the text as it is. *)
Lemma serialize_leaf_plain (tg s : string) :
  plain_text s = true -> s <> "" ->
  ET._serialize_xml (leaf tg s)
  = ("<" ++ ET.encode tg ++ ">" ++ s ++ "</" ++ ET.encode tg ++ ">")%string.
Proof.
  intros Hp Hs. unfold leaf.
  cbn [ET._serialize_xml map ET.join fold_right ET.opt_true ET.opt_text
       nonempty].
  destruct s as [|c s]; [congruence|]. cbn [str_true orb].
  rewrite (escape_cdata_plain _ Hp), (encode_plain _ Hp).
  cbn [String.append]. now rewrite !append_assoc, append_empty_r.
Qed.

Lemma serialize_object_plain (n : string) :
  plain_text n = true -> n <> "" ->
  ET._serialize_xml
    (ET.Elem "Object" [] None None [ET.Elem "Key" [] (Some n) None []])
  = ("<Object><Key>" ++ n ++ "</Key></Object>")%string.
Proof.
  intros Hp Hn.
  change (ET.Elem "Key" [] (Some n) None []) with (leaf "Key" n).
  cbn [ET._serialize_xml map ET.join fold_right ET.opt_true ET.opt_text
       nonempty orb].
  rewrite (serialize_leaf_plain "Key" n Hp Hn).
  rewrite !(encode_plain "Key" eq_refl), !(encode_plain "Object" eq_refl).
  do 3 (cbn [String.append]; rewrite ?append_assoc, ?append_empty_r).
  reflexivity.
Qed.

(** X16.  For object names of plain text (non-empty, characters below 128,
    no ampersand or angle bracket) [xml_marshal_delete_objects] returns
    exactly the template of the protocol with each name as it is: [Quiet],
    then one [Object] and [Key] per name, in order. *)
Theorem delete_objects_bytes (object_names : list string) :
  Forall (fun n => plain_text n = true /\ n <> "") object_names ->
  xml_marshal_delete_objects object_names
  = Ok ("<Delete><Quiet>true</Quiet>"
        ++ ET.join (map (fun n => "<Object><Key>" ++ n ++ "</Key></Object>")
                      object_names)
        ++ "</Delete>")%string.
Proof.
  intros H.
  unfold xml_marshal_delete_objects, xml_marshal_delete_objects_root, ET.built.
  unfold Element, ET.new. unfold ET.bind at 1.
  rewrite SubElement_root. cbn [app].
  rewrite delete_objects_loop. cbn [result_map snd app].
  unfold get_xml_data, ET.write.
  cbn [ET._serialize_xml map ET.join fold_right ET.opt_true ET.opt_text
       nonempty orb].
  rewrite map_map.
  assert (Hobj :
    map (fun n =>
           ET._serialize_xml
             (ET.Elem "Object" [] None None
                [ET.Elem "Key" [] (Some n) None []]))
      object_names
    = map (fun n => ("<Object><Key>" ++ n ++ "</Key></Object>")%string)
        object_names).
  { apply map_ext_in. intros n Hn. rewrite Forall_forall in H.
    destruct (H n Hn) as [Hp Hne]. now apply serialize_object_plain. }
  rewrite Hobj.
  rewrite !(encode_plain "Delete" eq_refl), !(encode_plain "Quiet" eq_refl).
  change (ET.encode (ET._escape_cdata "true")) with "true".
  do 3 (cbn [String.append]; rewrite ?append_assoc, ?append_empty_r).
  reflexivity.
Qed.

Lemma delete_objects_bytes_witness :
  xml_marshal_delete_objects ["a.txt"; "dir/b c.txt"]
  = Ok ("<Delete><Quiet>true</Quiet>"
        ++ "<Object><Key>a.txt</Key></Object>"
        ++ "<Object><Key>dir/b c.txt</Key></Object>"
        ++ "</Delete>")%string.
Proof.
  apply (delete_objects_bytes ["a.txt"; "dir/b c.txt"]).
  repeat constructor; discriminate.
Defined.

(** X17.  [xml_marshal_bucket_constraint] never fails.  A region of plain
    text is written as it is inside [LocationConstraint] under the
    namespaced root; an empty region and no region give the same bytes, an
    empty [LocationConstraint]. *)
Theorem bucket_constraint_bytes :
  (forall region,
      plain_text region = true -> region <> "" ->
      xml_marshal_bucket_constraint (Some region)
      = Ok ("<CreateBucketConfiguration xmlns=" ++ ET.dquote
            ++ _S3_NAMESPACE ++ ET.dquote ++ ">"
            ++ "<LocationConstraint>" ++ region ++ "</LocationConstraint>"
            ++ "</CreateBucketConfiguration>")%string)
  /\ xml_marshal_bucket_constraint (Some "")
     = xml_marshal_bucket_constraint None
  /\ xml_marshal_bucket_constraint None
     = Ok ("<CreateBucketConfiguration xmlns=" ++ ET.dquote
           ++ _S3_NAMESPACE ++ ET.dquote ++ ">"
           ++ "<LocationConstraint />"
           ++ "</CreateBucketConfiguration>")%string.
Proof.
  split; [|split; reflexivity].
  intros region Hp Hne.
  unfold xml_marshal_bucket_constraint, ET.built, Element, ET.new.
  rewrite SubElement_root. cbn [result_map snd app].
  unfold get_xml_data, ET.write.
  change (ET.Elem "LocationConstraint" [] (Some region) None [])
    with (leaf "LocationConstraint" region).
  cbn [ET._serialize_xml map ET.join fold_right ET.opt_true ET.opt_text
       nonempty orb fst snd].
  rewrite (serialize_leaf_plain "LocationConstraint" region Hp Hne).
  rewrite !(encode_plain "LocationConstraint" eq_refl).
  rewrite !(encode_plain "CreateBucketConfiguration" eq_refl).
  change (ET.encode "xmlns") with "xmlns".
  change (ET.encode (ET._escape_attrib _S3_NAMESPACE)) with _S3_NAMESPACE.
  unfold ET.dquote, _S3_NAMESPACE.
  do 3 (cbn [String.append]; rewrite ?append_assoc, ?append_empty_r).
  reflexivity.
Qed.

Lemma bucket_constraint_bytes_witness :
  xml_marshal_bucket_constraint (Some "us-west-1")
  = Ok ("<CreateBucketConfiguration xmlns=" ++ ET.dquote
        ++ _S3_NAMESPACE ++ ET.dquote ++ ">"
        ++ "<LocationConstraint>" ++ "us-west-1" ++ "</LocationConstraint>"
        ++ "</CreateBucketConfiguration>")%string.
Proof.
  apply (proj1 bucket_constraint_bytes "us-west-1");
    [reflexivity | discriminate].
Defined.

(** ** Decoding what a marshaller builds *)

(** X18.  The tree [xml_marshal_bucket_encryption] builds for a first rule
    with the [ApplyServerSideEncryptionByDefault] mapping decodes to a
    mapping whose [Rule] entry is a list of one mapping, the rule: the
    wrapping of [etree_to_dict] gives the list shape back even for the
    single rule the marshaller writes.  The algorithm and the key id come
    back trimmed, and an algorithm that is [None] or empty as [None]. *)
Theorem bucket_encryption_decodes_to_rule_list
  (rules_0 : rule) (others : list rule) (sse : dict (option string)) :
  dict_get "ApplyServerSideEncryptionByDefault" rules_0 = Some sse ->
  exists tree,
    xml_marshal_bucket_encryption_root (rules_0 :: others) = Ok tree
    /\ decode tree
       = [("ServerSideEncryptionConfiguration",
           VDict
             [("Rule",
               VList
                 [VDict
                    [("ApplyServerSideEncryptionByDefault",
                      VDict
                        (("SSEAlgorithm",
                          match dict_get "SSEAlgorithm" sse with
                          | Some (Some (String c s)) =>
                              VStr (strip (String c s))
                          | Some _ => VNone
                          | None => VStr "AES256"
                          end)
                         :: match dict_get "KMSMasterKeyID" sse with
                            | Some (Some (String c s)) =>
                                [("KMSMasterKeyID",
                                  VStr (strip (String c s)))]
                            | _ => []
                            end))]])])].
Proof.
  intros H.
  unfold xml_marshal_bucket_encryption_root, getitem, get_default.
  rewrite H. unfold ET.built, ET.bind, ET.ret. cbn.
  destruct (dict_get "SSEAlgorithm" sse) as [[[|c s]|]|];
    destruct (dict_get "KMSMasterKeyID" sse) as [[[|c' s']|]|];
    eexists; (split; [reflexivity|]); reflexivity.
Qed.

Lemma bucket_encryption_decodes_to_rule_list_witness :
  exists tree,
    xml_marshal_bucket_encryption_root
      [[("ApplyServerSideEncryptionByDefault",
         [("SSEAlgorithm", Some "aws:kms"); ("KMSMasterKeyID", Some "k1")])]]
    = Ok tree
    /\ decode tree
       = [("ServerSideEncryptionConfiguration",
           VDict
             [("Rule",
               VList
                 [VDict
                    [("ApplyServerSideEncryptionByDefault",
                      VDict [("SSEAlgorithm", VStr "aws:kms");
                             ("KMSMasterKeyID", VStr "k1")])]])])].
Proof.
  exact (bucket_encryption_decodes_to_rule_list
           [("ApplyServerSideEncryptionByDefault",
             [("SSEAlgorithm", Some "aws:kms"); ("KMSMasterKeyID", Some "k1")])]
           []
           [("SSEAlgorithm", Some "aws:kms"); ("KMSMasterKeyID", Some "k1")]
           eq_refl).
Defined.

(** ** The bytes of a completed multipart upload *)

Lemma plain_text_app (s1 s2 : string) :
  plain_text (s1 ++ s2) = plain_text s1 && plain_text s2.
Proof.
  induction s1 as [|c s1 IH]; simpl; [reflexivity|].
  now rewrite IH, !andb_assoc.
Qed.

Lemma plain_text_uint (d : Decimal.uint) :
  plain_text (NilEmpty.string_of_uint d) = true.
Proof. induction d; simpl; auto. Qed.

(** [str(n)] is plain text and never empty. *)
Lemma str_of_int_plain (n : Z) :
  plain_text (str_of_int n) = true /\ str_of_int n <> "".
Proof.
  unfold str_of_int. destruct n as [|p|p]; simpl.
  - split; [reflexivity | discriminate].
  - split; [apply plain_text_uint|].
    pose proof (Unsigned.to_uint_nonnil p) as H.
    destruct (Pos.to_uint p); [congruence | discriminate ..].
  - split; [apply plain_text_uint | discriminate].
Qed.

Lemma serialize_part_plain (p : UploadPart) :
  plain_text (etag p) = true ->
  ET._serialize_xml
    (ET.Elem "Part" [] None None
       [ET.Elem "PartNumber" [] (Some (str_of_int (part_number p))) None [];
        ET.Elem "ETag" []
          (Some (ET.dquote ++ etag p ++ ET.dquote)%string) None []])
  = ("<Part><PartNumber>" ++ str_of_int (part_number p)
     ++ "</PartNumber><ETag>" ++ ET.dquote ++ etag p ++ ET.dquote
     ++ "</ETag></Part>")%string.
Proof.
  intros Hp. destruct (str_of_int_plain (part_number p)) as [Hn Hne].
  change (ET.Elem "PartNumber" [] (Some (str_of_int (part_number p))) None [])
    with (leaf "PartNumber" (str_of_int (part_number p))).
  change (ET.Elem "ETag" [] (Some (ET.dquote ++ etag p ++ ET.dquote)%string)
            None [])
    with (leaf "ETag" (ET.dquote ++ etag p ++ ET.dquote)%string).
  cbn [ET._serialize_xml map ET.join fold_right ET.opt_true ET.opt_text
       nonempty orb].
  rewrite (serialize_leaf_plain "PartNumber" _ Hn Hne).
  rewrite (serialize_leaf_plain "ETag" (ET.dquote ++ etag p ++ ET.dquote)).
  - rewrite !(encode_plain "PartNumber" eq_refl).
    rewrite !(encode_plain "ETag" eq_refl), !(encode_plain "Part" eq_refl).
    unfold ET.dquote.
    do 4 (cbn [String.append]; rewrite ?append_assoc, ?append_empty_r).
    reflexivity.
  - rewrite !plain_text_app, Hp. reflexivity.
  - discriminate.
Qed.

(** X19.  For parts whose digests are plain text,
    [xml_marshal_complete_multipart_upload] returns exactly the template
    of the protocol: under the namespaced root one [Part] per part, in
    order, with the decimal part number and the digest between double
    quotes; and for no part at all, the empty root element. *)
Theorem complete_multipart_upload_bytes (uploaded_parts : list UploadPart) :
  Forall (fun p => plain_text (etag p) = true) uploaded_parts ->
  xml_marshal_complete_multipart_upload uploaded_parts
  = Ok match uploaded_parts with
       | [] =>
           ("<CompleteMultipartUpload xmlns=" ++ ET.dquote
            ++ _S3_NAMESPACE ++ ET.dquote ++ " />")%string
       | _ :: _ =>
           ("<CompleteMultipartUpload xmlns=" ++ ET.dquote
            ++ _S3_NAMESPACE ++ ET.dquote ++ ">"
            ++ ET.join
                 (map (fun p =>
                         "<Part><PartNumber>" ++ str_of_int (part_number p)
                         ++ "</PartNumber><ETag>" ++ ET.dquote ++ etag p
                         ++ ET.dquote ++ "</ETag></Part>")
                    uploaded_parts)
            ++ "</CompleteMultipartUpload>")%string
       end.
Proof.
  intros H.
  unfold xml_marshal_complete_multipart_upload,
    xml_marshal_complete_multipart_upload_root, ET.built.
  unfold Element, ET.new.
  rewrite complete_multipart_upload_loop. cbn [result_map snd app].
  destruct uploaded_parts as [|p0 ps]; [reflexivity|].
  unfold get_xml_data, ET.write.
  assert (Hparts :
    map ET._serialize_xml
      (map (fun p =>
              ET.Elem "Part" [] None None
                [ET.Elem "PartNumber" []
                   (Some (str_of_int (part_number p))) None [];
                 ET.Elem "ETag" []
                   (Some (ET.dquote ++ etag p ++ ET.dquote)%string)
                   None []]) (p0 :: ps))
    = map (fun p =>
             ("<Part><PartNumber>" ++ str_of_int (part_number p)
              ++ "</PartNumber><ETag>" ++ ET.dquote ++ etag p
              ++ ET.dquote ++ "</ETag></Part>")%string) (p0 :: ps)).
  { rewrite map_map. apply map_ext_in. intros p Hin.
    rewrite Forall_forall in H. now apply serialize_part_plain, H. }
  revert Hparts.
  generalize (map (fun p =>
                     ("<Part><PartNumber>" ++ str_of_int (part_number p)
                      ++ "</PartNumber><ETag>" ++ ET.dquote ++ etag p
                      ++ ET.dquote ++ "</ETag></Part>")%string) (p0 :: ps)).
  assert (Hne : nonempty
                  (map (fun p =>
                          ET.Elem "Part" [] None None
                            [ET.Elem "PartNumber" []
                               (Some (str_of_int (part_number p))) None [];
                             ET.Elem "ETag" []
                               (Some (ET.dquote ++ etag p ++ ET.dquote)%string)
                               None []]) (p0 :: ps)) = true) by reflexivity.
  revert Hne.
  generalize (map (fun p =>
                     ET.Elem "Part" [] None None
                       [ET.Elem "PartNumber" []
                          (Some (str_of_int (part_number p))) None [];
                        ET.Elem "ETag" []
                          (Some (ET.dquote ++ etag p ++ ET.dquote)%string)
                          None []]) (p0 :: ps)).
  intros parts Hne bytes Hparts.
  cbn [ET._serialize_xml ET.opt_true ET.opt_text orb map ET.join fold_right
       fst snd].
  rewrite Hne, Hparts.
  rewrite !(encode_plain "CompleteMultipartUpload" eq_refl).
  change (ET.encode "xmlns") with "xmlns".
  change (ET.encode (ET._escape_attrib _S3_NAMESPACE)) with _S3_NAMESPACE.
  unfold ET.dquote, _S3_NAMESPACE.
  do 4 (cbn [String.append]; rewrite ?append_assoc, ?append_empty_r).
  reflexivity.
Qed.

Lemma complete_multipart_upload_bytes_witness :
  xml_marshal_complete_multipart_upload
    [{| part_number := 1; etag := "abc" |};
     {| part_number := 12; etag := "def" |}]
  = Ok ("<CompleteMultipartUpload xmlns=" ++ ET.dquote
        ++ _S3_NAMESPACE ++ ET.dquote ++ ">"
        ++ "<Part><PartNumber>1</PartNumber><ETag>" ++ ET.dquote ++ "abc"
        ++ ET.dquote ++ "</ETag></Part>"
        ++ "<Part><PartNumber>12</PartNumber><ETag>" ++ ET.dquote ++ "def"
        ++ ET.dquote ++ "</ETag></Part>"
        ++ "</CompleteMultipartUpload>")%string.
Proof.
  apply (complete_multipart_upload_bytes
           [{| part_number := 1; etag := "abc" |};
            {| part_number := 12; etag := "def" |}]).
  repeat constructor.
Defined.

Lemma bucket_encryption_ok_iff_witness :
  xml_marshal_bucket_encryption
    [[("Rule", [])];
     [("ApplyServerSideEncryptionByDefault",
       [("SSEAlgorithm", Some "AES256")])]]
  = Raise (KeyError "ApplyServerSideEncryptionByDefault").
Proof.
  apply (proj2 (bucket_encryption_ok_iff
                  [[("Rule", [])];
                   [("ApplyServerSideEncryptionByDefault",
                     [("SSEAlgorithm", Some "AES256")])]])).
  reflexivity.
Defined.

(** ** Bytes of the trees the marshallers build *)

(** An element of a plain name with children and nothing else is written
    as its tags around its children. *)
Lemma serialize_container (tg : string) (cs : list ET.Element) :
  plain_text tg = true -> nonempty cs = true ->
  ET._serialize_xml (ET.Elem tg [] None None cs)
  = ("<" ++ tg ++ ">" ++ ET.join (map ET._serialize_xml cs)
     ++ "</" ++ tg ++ ">")%string.
Proof.
  intros Hp Hne.
  cbn [ET._serialize_xml map ET.join fold_right ET.opt_true ET.opt_text orb].
  rewrite Hne, (encode_plain _ Hp).
  do 3 (cbn [String.append]; rewrite ?append_assoc, ?append_empty_r).
  reflexivity.
Qed.

Lemma bucket_encryption_tree_bytes (algorithm : ET.Element)
  (kms : list ET.Element) :
  get_xml_data
    (ET.Elem "ServerSideEncryptionConfiguration" [] None None
       [ET.Elem "Rule" [] None None
          [ET.Elem "ApplyServerSideEncryptionByDefault" [] None None
             (algorithm :: kms)]])
  = ("<ServerSideEncryptionConfiguration><Rule>"
     ++ "<ApplyServerSideEncryptionByDefault>"
     ++ ET._serialize_xml algorithm ++ ET.join (map ET._serialize_xml kms)
     ++ "</ApplyServerSideEncryptionByDefault>"
     ++ "</Rule></ServerSideEncryptionConfiguration>")%string.
Proof.
  unfold get_xml_data, ET.write.
  rewrite (serialize_container "ServerSideEncryptionConfiguration")
    by reflexivity.
  cbn [map ET.join fold_right].
  rewrite (serialize_container "Rule") by reflexivity.
  cbn [map ET.join fold_right].
  rewrite (serialize_container "ApplyServerSideEncryptionByDefault")
    by reflexivity.
  cbn [map ET.join fold_right].
  do 4 (cbn [String.append]; rewrite ?append_assoc, ?append_empty_r).
  reflexivity.
Qed.

(** C5, as the code has it.  For every rule list whose first rule has the
    [ApplyServerSideEncryptionByDefault] mapping, the marshaller returns the
    bytes of a tree with exactly one [Rule] holding exactly one
    [ApplyServerSideEncryptionByDefault], built from the first rule and from
    no other: the bytes are the three opening tags, the [SSEAlgorithm]
    element (with the text [AES256] when the rule has no such key), a
    [KMSMasterKeyID] element only when the rule has a non-empty key id, and
    the three closing tags; with neither key they are exactly the document
    of the default algorithm. *)
Theorem bucket_encryption_first_rule_only
  (rules_0 : rule) (others : list rule) (sse : dict (option string)) :
  dict_get "ApplyServerSideEncryptionByDefault" rules_0 = Some sse ->
  let algorithm :=
    ET.Elem "SSEAlgorithm" []
      match dict_get "SSEAlgorithm" sse with
      | Some algorithm => algorithm
      | None => Some "AES256"
      end None [] in
  let kms :=
    match dict_get "KMSMasterKeyID" sse with
    | Some (Some (String c s)) =>
        [ET.Elem "KMSMasterKeyID" [] (Some (String c s)) None []]
    | _ => []
    end in
  let tree :=
    ET.Elem "ServerSideEncryptionConfiguration" [] None None
      [ET.Elem "Rule" [] None None
         [ET.Elem "ApplyServerSideEncryptionByDefault" [] None None
            (algorithm :: kms)]] in
  xml_marshal_bucket_encryption_root (rules_0 :: others) = Ok tree
  /\ xml_marshal_bucket_encryption (rules_0 :: others)
     = Ok (get_xml_data tree)
  /\ xml_marshal_bucket_encryption (rules_0 :: others)
     = Ok ("<ServerSideEncryptionConfiguration><Rule>"
           ++ "<ApplyServerSideEncryptionByDefault>"
           ++ ET._serialize_xml algorithm
           ++ ET.join (map ET._serialize_xml kms)
           ++ "</ApplyServerSideEncryptionByDefault>"
           ++ "</Rule></ServerSideEncryptionConfiguration>")%string
  /\ xml_marshal_bucket_encryption (rules_0 :: others)
     = xml_marshal_bucket_encryption [rules_0]
  /\ (dict_get "SSEAlgorithm" sse = None ->
      dict_get "KMSMasterKeyID" sse = None ->
      xml_marshal_bucket_encryption (rules_0 :: others)
      = Ok ("<ServerSideEncryptionConfiguration><Rule>"
            ++ "<ApplyServerSideEncryptionByDefault>"
            ++ "<SSEAlgorithm>AES256</SSEAlgorithm>"
            ++ "</ApplyServerSideEncryptionByDefault>"
            ++ "</Rule></ServerSideEncryptionConfiguration>")%string).
Proof.
  intros H algorithm kms tree.
  assert (Hroot : xml_marshal_bucket_encryption_root (rules_0 :: others)
                  = Ok tree).
  { subst tree algorithm kms.
    unfold xml_marshal_bucket_encryption_root, getitem, get_default.
    rewrite H. unfold ET.built, ET.bind, ET.ret. cbn.
    destruct (dict_get "SSEAlgorithm" sse) as [[alg|]|];
      destruct (dict_get "KMSMasterKeyID" sse) as [[[|c s]|]|];
      reflexivity. }
  assert (Hdata : xml_marshal_bucket_encryption (rules_0 :: others)
                  = Ok (get_xml_data tree)).
  { unfold xml_marshal_bucket_encryption. now rewrite Hroot. }
  split; [exact Hroot|]. split; [exact Hdata|].
  split; [|split; [reflexivity|]].
  - rewrite Hdata. subst tree. now rewrite bucket_encryption_tree_bytes.
  - intros Ha Hk. rewrite Hdata. subst tree algorithm kms.
    rewrite Ha, Hk. reflexivity.
Qed.

Lemma bucket_encryption_first_rule_only_witness :
  xml_marshal_bucket_encryption
    [[("ApplyServerSideEncryptionByDefault", [])];
     [("ApplyServerSideEncryptionByDefault",
       [("SSEAlgorithm", Some "aws:kms"); ("KMSMasterKeyID", Some "k")])]]
  = Ok ("<ServerSideEncryptionConfiguration><Rule>"
        ++ "<ApplyServerSideEncryptionByDefault>"
        ++ "<SSEAlgorithm>AES256</SSEAlgorithm>"
        ++ "</ApplyServerSideEncryptionByDefault>"
        ++ "</Rule></ServerSideEncryptionConfiguration>")%string.
Proof.
  apply (bucket_encryption_first_rule_only
           [("ApplyServerSideEncryptionByDefault", [])]
           [[("ApplyServerSideEncryptionByDefault",
              [("SSEAlgorithm", Some "aws:kms");
               ("KMSMasterKeyID", Some "k")])]]
           [] eq_refl); reflexivity.
Defined.

(** C5 as stated fails: a rule list that is not empty, but whose first rule
    has no [ApplyServerSideEncryptionByDefault] mapping, makes the
    marshaller raise [KeyError]; it emits nothing. *)
Lemma bucket_encryption_missing_mapping_counterexample :
  let rules : list rule := [[]] in
  rules <> []
  /\ xml_marshal_bucket_encryption rules
     = Raise (KeyError "ApplyServerSideEncryptionByDefault")
  /\ forall data, xml_marshal_bucket_encryption rules <> Ok data.
Proof.
  cbv zeta. split; [|split]; [discriminate | reflexivity | discriminate].
Qed.

Lemma select_tree_bytes (e1 e2 compression e4 e5 : ET.Element)
  (blocks : list ET.Element) :
  get_xml_data
    (ET.Elem "SelectObjectContentRequest" [] None None
       [e1; e2;
        ET.Elem "InputSerialization" [] None None (compression :: blocks);
        e4; e5])
  = ("<SelectObjectContentRequest>"
     ++ ET._serialize_xml e1 ++ ET._serialize_xml e2
     ++ "<InputSerialization>"
     ++ ET._serialize_xml compression
     ++ ET.join (map ET._serialize_xml blocks)
     ++ "</InputSerialization>"
     ++ ET._serialize_xml e4 ++ ET._serialize_xml e5
     ++ "</SelectObjectContentRequest>")%string.
Proof.
  unfold get_xml_data, ET.write.
  rewrite (serialize_container "SelectObjectContentRequest") by reflexivity.
  cbn [map ET.join fold_right].
  rewrite (serialize_container "InputSerialization") by reflexivity.
  cbn [map ET.join fold_right].
  do 4 (cbn [String.append]; rewrite ?append_assoc, ?append_empty_r).
  reflexivity.
Qed.

(** The root of a select request, but for the output serialisation and
    the request progress. *)
Lemma select_root_shape (opts : SelectObjectOptions) :
  exists blocks e4 e5,
    xml_marshal_select_root opts
    = Ok (ET.Elem "SelectObjectContentRequest" [] None None
            [leaf "Expression" (expression opts);
             leaf "ExpressionType" "SQL";
             ET.Elem "InputSerialization" [] None None
               (ET.Elem "CompressionType" []
                  (Some (compression_type (in_ser opts))) None []
                :: blocks);
             e4; e5])
    /\ map ET.tag [e4; e5] = ["OutputSerialization"; "RequestProgress"]
    /\ map ET.tag blocks
       = match csv_input (in_ser opts) with Some _ => ["CSV"] | None => [] end
         ++ match json_input (in_ser opts) with
            | Some _ => ["JSON"]
            | None => []
            end
         ++ match parquet_input (in_ser opts) with
            | Some _ => ["Parquet"]
            | None => []
            end.
Proof.
  destruct opts as [e [ct csv json pq] [co jo] [en]].
  destruct csv, json, pq, co, jo;
    do 3 eexists;
    (split; [cbv - [lower]; reflexivity | split; reflexivity]).
Qed.

(** C10.  Whatever the options, the marshaller returns the bytes of a tree
    whose third child is [InputSerialization], the only element of that
    name, with [CompressionType] holding the compression type as its first
    child and the blocks of the populated variants ([CSV], [JSON],
    [Parquet], in this order) after it.  In the bytes returned, the
    [CompressionType] element follows the opening [InputSerialization] tag
    at once, before any variant block. *)
Theorem select_compression_type_first (opts : SelectObjectOptions) :
  exists blocks e4 e5,
    let e1 := leaf "Expression" (expression opts) in
    let e2 := leaf "ExpressionType" "SQL" in
    let compression :=
      ET.Elem "CompressionType" []
        (Some (compression_type (in_ser opts))) None [] in
    let tree :=
      ET.Elem "SelectObjectContentRequest" [] None None
        [e1; e2;
         ET.Elem "InputSerialization" [] None None (compression :: blocks);
         e4; e5] in
    xml_marshal_select_root opts = Ok tree
    /\ map ET.tag [e1; e2; e4; e5]
       = ["Expression"; "ExpressionType"; "OutputSerialization";
          "RequestProgress"]
    /\ map ET.tag blocks
       = match csv_input (in_ser opts) with Some _ => ["CSV"] | None => [] end
         ++ match json_input (in_ser opts) with
            | Some _ => ["JSON"]
            | None => []
            end
         ++ match parquet_input (in_ser opts) with
            | Some _ => ["Parquet"]
            | None => []
            end
    /\ xml_marshal_select opts = Ok (get_xml_data tree)
    /\ xml_marshal_select opts
       = Ok ("<SelectObjectContentRequest>"
             ++ ET._serialize_xml e1
             ++ "<ExpressionType>SQL</ExpressionType>"
             ++ "<InputSerialization>"
             ++ ET._serialize_xml compression
             ++ ET.join (map ET._serialize_xml blocks)
             ++ "</InputSerialization>"
             ++ ET._serialize_xml e4 ++ ET._serialize_xml e5
             ++ "</SelectObjectContentRequest>")%string.
Proof.
  destruct (select_root_shape opts) as (blocks & e4 & e5 & Hroot & H45 & Hb).
  exists blocks, e4, e5. cbv zeta.
  assert (Hdata : xml_marshal_select opts
                  = Ok (get_xml_data
                          (ET.Elem "SelectObjectContentRequest" [] None None
                             [leaf "Expression" (expression opts);
                              leaf "ExpressionType" "SQL";
                              ET.Elem "InputSerialization" [] None None
                                (ET.Elem "CompressionType" []
                                   (Some (compression_type (in_ser opts)))
                                   None []
                                 :: blocks);
                              e4; e5]))).
  { unfold xml_marshal_select. now rewrite Hroot. }
  split; [exact Hroot|]. split.
  { cbn [map ET.tag leaf]. cbn [map] in H45.
    injection H45 as -> ->. reflexivity. }
  split; [exact Hb|]. split; [exact Hdata|].
  rewrite Hdata, select_tree_bytes. reflexivity.
Qed.

(** ** Namespace prefix in the keys *)

Lemma tags_node t a x tl cs :
  Forall tag_uniform (tags (ET.Elem t a x tl cs)) ->
  tag_uniform t /\ Forall (fun c => Forall tag_uniform (tags c)) cs.
Proof.
  cbn [tags]. intros H. inversion H as [|? ? Ht Hcs]; subst.
  split; [exact Ht | now apply Forall_flat_map].
Qed.

Lemma tree_after_tags_uniform (elem : ET.Element) :
  Forall tag_uniform (tags elem) -> local_tags (tree_after elem) = true.
Proof.
  induction elem as [t a x tl cs IH] using Element_forest_ind.
  intros H. apply tags_node in H as [Ht Hcs].
  rewrite tree_after_node. cbn [local_tags].
  rewrite (strip_ns_uniform _ Ht). cbn [andb].
  apply forallb_forall. intros c' Hin.
  apply in_map_iff in Hin as (c & <- & Hc).
  rewrite Forall_forall in IH, Hcs. exact (IH c Hc (Hcs c Hc)).
Qed.

(** C9, as the code has it.  On a document whose element tags use at most
    the protocol namespace (every tag is a local name or [ns] followed by
    one), the prefix is removed from the tag of every node, at every depth,
    before the tag is used as a key: no tag of the tree keeps a brace, and
    every key of the mapping, at any depth, is free of [ns] or is the
    [@name] key of an attribute.  Attribute names are not stripped; where
    they are local names too, no key at all contains [ns]. *)
Theorem decode_tag_keys_namespace_free (elem : ET.Element) :
  Forall tag_uniform (tags elem) ->
  Forall (fun k => contains ns k = false \/ prefix "@" k = true)
    (decode_keys elem)
  /\ local_tags (tree_after elem) = true
  /\ (uniform_ns elem ->
      Forall (fun k => contains ns k = false) (decode_keys elem)).
Proof.
  intros H. split; [|split].
  - revert elem H.
    apply (decode_keys_ok
             (fun k => contains ns k = false \/ prefix "@" k = true)
             (fun e => Forall tag_uniform (tags e))).
    + now left.
    + intros t a x tl cs H. apply tags_node in H as [Ht Hcs].
      split; [|split; [|exact Hcs]].
      * left. now apply local_name_no_ns, strip_ns_uniform.
      * apply Forall_forall. intros [k s] _. right.
        cbn [fst]. now destruct k.
  - now apply tree_after_tags_uniform.
  - intros Hu. now apply decode_keys_namespace_free.
Qed.

Lemma decode_tag_keys_namespace_free_witness :
  let doc :=
    ET.Elem (ns ++ "AccessControlPolicy") [] None None
      [ET.Elem (ns ++ "Grantee") [((ns ++ "type")%string, "Group")]
         None None
         [ET.Elem (ns ++ "URI") [] (Some "u") None []]] in
  Forall (fun k => contains ns k = false \/ prefix "@" k = true)
    (decode_keys doc)
  /\ local_tags (tree_after doc) = true.
Proof.
  cbv zeta.
  assert (Htag : forall l, local_name l = true -> tag_uniform (ns ++ l)).
  { intros l Hl. exists l. split; [exact Hl | now right]. }
  assert (H : Forall tag_uniform
                (tags
                   (ET.Elem (ns ++ "AccessControlPolicy") [] None None
                      [ET.Elem (ns ++ "Grantee")
                         [((ns ++ "type")%string, "Group")] None None
                         [ET.Elem (ns ++ "URI") [] (Some "u") None []]]))).
  { repeat (constructor; try (apply Htag; reflexivity)). }
  destruct (decode_tag_keys_namespace_free _ H) as (Hk & Ht & _).
  split; [exact Hk | exact Ht].
Defined.

(** C9 as stated fails: in a document that uses the protocol namespace and
    no other, for its tags and for an attribute, the key of the attribute
    contains the namespace prefix. *)
Lemma decode_keys_namespace_counterexample :
  let doc :=
    ET.Elem (ns ++ "Grantee") [((ns ++ "type")%string, "Group")]
      None None [] in
  decode_keys doc
  = ["Grantee"; "@{http://s3.amazonaws.com/doc/2006-03-01/}type"]
  /\ contains ns "@{http://s3.amazonaws.com/doc/2006-03-01/}type" = true
  /\ ~ Forall (fun k => contains ns k = false) (decode_keys doc).
Proof.
  cbv zeta. split; [reflexivity|]. split; [reflexivity|].
  intros H. inversion H as [|? ? _ H']; subst.
  inversion H' as [|? ? Hk _]; subst. discriminate Hk.
Qed.

(** ** Bytes below 128 *)

Lemma marshalled_ascii (r : result ET.Element) (data : string) :
  result_map get_xml_data r = Ok data -> is_ascii data = true.
Proof.
  destruct r as [e|err]; simpl; [|discriminate].
  intros [= <-]. apply get_xml_data_ascii.
Qed.

(** X15.  Whatever its input, each of the six marshallers that returns,
    returns bytes below 128 only: the trees they build have literal tags,
    and a character of a name, a region, a digest or an expression outside
    that range is written as a character reference. *)
Theorem marshallers_emit_ascii :
  (forall rules data,
      xml_marshal_bucket_encryption rules = Ok data -> is_ascii data = true)
  /\ (forall region data,
        xml_marshal_bucket_constraint region = Ok data ->
        is_ascii data = true)
  /\ (forall opts data,
        xml_marshal_select opts = Ok data -> is_ascii data = true)
  /\ (forall uploaded_parts data,
        xml_marshal_complete_multipart_upload uploaded_parts = Ok data ->
        is_ascii data = true)
  /\ (forall notifications data,
        xml_marshal_bucket_notifications notifications = Ok data ->
        is_ascii data = true)
  /\ (forall object_names data,
        xml_marshal_delete_objects object_names = Ok data ->
        is_ascii data = true).
Proof.
  repeat split; intros ? data H; exact (marshalled_ascii _ data H).
Qed.

Lemma marshallers_emit_ascii_witness :
  let name := String (ascii_of_nat 233) "t" in
  is_ascii name = false
  /\ xml_marshal_delete_objects [name]
     = Ok ("<Delete><Quiet>true</Quiet>"
           ++ "<Object><Key>&#233;t</Key></Object></Delete>")%string
  /\ is_ascii
       ("<Delete><Quiet>true</Quiet>"
        ++ "<Object><Key>&#233;t</Key></Object></Delete>") = true.
Proof.
  cbv zeta. split; [reflexivity|]. split; [reflexivity|].
  apply (proj2 (proj2 (proj2 (proj2 (proj2 marshallers_emit_ascii))))
           [String (ascii_of_nat 233) "t"]).
  reflexivity.
Defined.
